(** * Retrieval-augmented chat over collected tweets

    A shallow embedding of the notebooks' Python code:
    - [clean_tweet], [get_embedding], [vector_search], the embedding backfill
      loop, [chatbot] and the interactive loop of
      Exploring-Twitter-Data-with-Vector-Databases-and-RAG-Systems.ipynb;
    - the tweet insert loops of Collect_Twitter_Data.ipynb.

    Python [str] values are lists of Unicode code points.  Stateful code is
    written in a state-and-exception monad over the notebook's globals
    ([chat_history], [tweet_collection], standard output) and a trace of the
    calls issued to the external services. *)

From Stdlib Require Import String Ascii.
From Stdlib Require Import List NArith ZArith Bool Lia.
From Stdlib Require Import Sorting.Sorted.
From Equations Require Import Equations.
Import ListNotations.

Set Default Proof Using "Type".

(* ===================================================================== *)
(** * Part I. Definitions *)
(* ===================================================================== *)

(** ** Python strings *)

Definition char := N.
Definition str := list char.

Definition ch (a : ascii) : char := N_of_ascii a.

(** A string literal of the source, as code points. *)
Definition lit (s : string) : str := map ch (list_ascii_of_string s).
Arguments lit : simpl never.

(** [a == b] on strings. *)
Fixpoint str_eqb (a b : str) : bool :=
  match a, b with
  | [], [] => true
  | x :: a', y :: b' => (x =? y)%N && str_eqb a' b'
  | _, _ => false
  end.

Definition in_range (lo hi : ascii) (c : char) : bool :=
  (ch lo <=? c)%N && (c <=? ch hi)%N.

Definition is_char (a : ascii) (c : char) : bool := (c =? ch a)%N.

(** ** The sanitizer: [clean_tweet]

<<
url_pattern = r'http[s]?://(?:[a-zA-Z]|[0-9]|[$-_@.&+]|[!*\\(\\),]|(?:%[0-9a-fA-F][0-9a-fA-F]))+'
return re.sub(url_pattern, '', text)
>> *)

Module UrlPattern.

(** [[a-zA-Z]] *)
Definition cls_letter (c : char) : bool :=
  in_range "a" "z" c || in_range "A" "Z" c.

(** [[0-9]] *)
Definition cls_digit (c : char) : bool := in_range "0" "9" c.

(** [[$-_@.&+]]: the range from [$] to [_], then [@], [.], [&], [+]. *)
Definition cls_symbol (c : char) : bool :=
  in_range "$" "_" c || is_char "@" c || is_char "." c
  || is_char "&" c || is_char "+" c.

(** [[!*\\(\\),]] of the raw string: [!], [*], backslash, [(], backslash,
    [)], [,]. *)
Definition cls_punct (c : char) : bool :=
  is_char "!" c || is_char "*" c || is_char "\" c || is_char "(" c
  || is_char "\" c || is_char ")" c || is_char "," c.

(** [[0-9a-fA-F]] *)
Definition cls_hex (c : char) : bool :=
  in_range "0" "9" c || in_range "a" "f" c || in_range "A" "F" c.

(** The four one-character alternatives of the group, tried in order. *)
Definition url_char (c : char) : bool :=
  cls_letter c || cls_digit c || cls_symbol c || cls_punct c.

(** One iteration of the group [(?:...|...|...|...|(?:%XX))]: the rest of
    the input after the first alternative that matches. *)
Definition unit_at (s : str) : option str :=
  match s with
  | [] => None
  | c :: rest =>
      if url_char c then Some rest
      else match rest with
           | h1 :: h2 :: rest' =>
               if is_char "%" c && cls_hex h1 && cls_hex h2
               then Some rest' else None
           | _ => None
           end
  end.

(** The greedy repetition of the group, as many iterations as match: the
    rest of the input after them.  Nothing follows the group in the
    pattern, so the engine never backtracks into it. *)
Fixpoint star_at (s : str) : str :=
  match s with
  | [] => []
  | c :: rest =>
      if url_char c then star_at rest
      else match rest with
           | h1 :: h2 :: rest' =>
               if is_char "%" c && cls_hex h1 && cls_hex h2
               then star_at rest' else s
           | _ => s
           end
  end.

(** A literal of the pattern: the rest of the input after it. *)
Fixpoint literal_at (p s : str) : option str :=
  match p with
  | [] => Some s
  | a :: p' =>
      match s with
      | [] => None
      | c :: s' => if (c =? a)%N then literal_at p' s' else None
      end
  end.

(** [://(?:...)+] *)
Definition tail_at (s : str) : option str :=
  match literal_at (lit "://") s with
  | None => None
  | Some body =>
      match unit_at body with
      | None => None
      | Some rest => Some (star_at rest)
      end
  end.

(** The whole pattern anchored at the head of [s]: the rest of the input
    after the match.  [[s]?] is greedy: the engine first takes the [s] and
    falls back to skipping it. *)
Definition match_at (s : str) : option str :=
  match literal_at (lit "http") s with
  | None => None
  | Some r =>
      match r with
      | c :: r' =>
          if is_char "s" c
          then match tail_at r' with
               | Some after => Some after
               | None => tail_at r
               end
          else tail_at r
      | [] => tail_at r
      end
  end.

(** The language of the pattern, read off the regular expression: what
    the code takes for a URL. *)
Inductive group : str -> Prop :=
| group_letter c : cls_letter c = true -> group [c]
| group_digit c : cls_digit c = true -> group [c]
| group_symbol c : cls_symbol c = true -> group [c]
| group_punct c : cls_punct c = true -> group [c]
| group_escape h1 h2 :
    cls_hex h1 = true -> cls_hex h2 = true -> group [ch "%"; h1; h2].

Inductive group_plus : str -> Prop :=
| plus_one u : group u -> group_plus u
| plus_more u v : group u -> group_plus v -> group_plus (u ++ v).

Inductive url_shaped : str -> Prop :=
| shaped_http body : group_plus body -> url_shaped (lit "http://" ++ body)
| shaped_https body : group_plus body -> url_shaped (lit "https://" ++ body).

End UrlPattern.

Definition inspect {A} (a : A) : {b : A | a = b} := exist _ a eq_refl.

Lemma literal_at_length p s r :
  UrlPattern.literal_at p s = Some r -> length s = length p + length r.
Proof.
  revert s; induction p as [|a p IH]; intros [|c s] H; simpl in *;
    try discriminate.
  - now inversion H.
  - now inversion H.
  - destruct (c =? a)%N; [|discriminate]. now rewrite (IH _ H).
Qed.

Lemma star_at_length s : length (UrlPattern.star_at s) <= length s.
Proof.
  remember (length s) as n eqn:E.
  revert s E; induction n as [n IH] using lt_wf_ind; intros s ->.
  destruct s as [|c rest]; simpl; [lia|].
  destruct (UrlPattern.url_char c).
  - specialize (IH (length rest) ltac:(simpl; lia) rest eq_refl). lia.
  - destruct rest as [|h1 [|h2 rest']]; simpl; try lia.
    destruct (_ && _ && _); simpl; [|lia].
    specialize (IH (length rest') ltac:(simpl; lia) rest' eq_refl). lia.
Qed.

Lemma unit_at_length s r :
  UrlPattern.unit_at s = Some r -> length r < length s.
Proof.
  destruct s as [|c rest]; simpl; [discriminate|].
  destruct (UrlPattern.url_char c).
  - intros H; inversion H; lia.
  - destruct rest as [|h1 [|h2 rest']]; try discriminate.
    destruct (_ && _ && _); [|discriminate].
    intros H; inversion H; simpl; lia.
Qed.

Lemma tail_at_length s r :
  UrlPattern.tail_at s = Some r -> length r < length s.
Proof.
  unfold UrlPattern.tail_at.
  destruct (UrlPattern.literal_at _ s) as [body|] eqn:L; [|discriminate].
  destruct (UrlPattern.unit_at body) as [rest|] eqn:U; [|discriminate].
  intros H; inversion H; subst.
  apply literal_at_length in L. apply unit_at_length in U.
  pose proof (star_at_length rest). lia.
Qed.

Lemma match_at_length s r :
  UrlPattern.match_at s = Some r -> length r < length s.
Proof.
  unfold UrlPattern.match_at.
  destruct (UrlPattern.literal_at _ s) as [t|] eqn:L; [|discriminate].
  apply literal_at_length in L.
  assert (T : forall x y, UrlPattern.tail_at x = Some y ->
                          length x <= length t -> length y < length s).
  { intros x y Hx Hl. apply tail_at_length in Hx. lia. }
  destruct t as [|c r']; [intros H; now apply (T [] r)|].
  destruct (is_char "s" c).
  - destruct (UrlPattern.tail_at r') eqn:E.
    + intros H; inversion H; subst. apply (T r' r E). simpl; lia.
    + intros H. now apply (T (c :: r') r).
  - intros H. now apply (T (c :: r') r).
Qed.

(** [re.sub(url_pattern, '', text)]: scan from the left; where the pattern
    matches, drop the match and resume after it; elsewhere keep the
    character. *)
Equations? clean_tweet (t : str) : str by wf (length t) lt :=
  clean_tweet [] := [];
  clean_tweet (c :: rest) with inspect (UrlPattern.match_at (c :: rest)) := {
    | exist _ (Some after) _ := clean_tweet after;
    | exist _ None _ := c :: clean_tweet rest }.
Proof.
  apply (match_at_length (c :: rest)); assumption.
Qed.

(** The maximal run of pattern characters at the head of a text, and what
    follows it. *)
Fixpoint url_run (s : str) : str :=
  match s with
  | c :: rest => if UrlPattern.url_char c then c :: url_run rest else []
  | [] => []
  end.

Fixpoint after_run (s : str) : str :=
  match s with
  | c :: rest => if UrlPattern.url_char c then after_run rest else s
  | [] => []
  end.

(** The text begins with nothing, or with a character outside the
    pattern's classes. *)
Definition stops (s : str) : Prop :=
  match s with
  | [] => True
  | c :: _ => UrlPattern.url_char c = false
  end.

Definition starts_url (s : str) : Prop :=
  exists x body, UrlPattern.url_char x = true /\
    (s = lit "http://" ++ x :: body \/ s = lit "https://" ++ x :: body).





(** No substring of the text is in the language of the pattern. *)
Definition url_free (s : str) : Prop :=
  forall pre u post, s = pre ++ u ++ post -> ~ UrlPattern.url_shaped u.




(** ** [str.lower()] *)

Definition is_ascii (c : char) : bool := (c <? 128)%N.

Definition ascii_lower (c : char) : char :=
  if in_range "A" "Z" c then (c + 32)%N else c.

Section Notebook.

(** An embedding: the list of 1536 floats the embedding model returns.
    The notebooks only pass it from one service to the other. *)
Variable Vec : Type.

(** The score the vector index gives a stored embedding against the query
    vector (cosine similarity, computed by the database).  Scores are only
    compared. *)
Variable similarity : Vec -> Vec -> Z.

(** Python's [str.lower()] on a string that has a non-ASCII code point
    (the Unicode case mapping of the interpreter). *)
Variable unicode_lower : str -> str.

Definition lower (s : str) : str :=
  if forallb is_ascii s then map ascii_lower s else unicode_lower s.

(** *** Data *)

(** The [role] of a chat message: ["system"], ["user"], ["assistant"]. *)
Inductive role_tag : Type := System | User | Assistant.

(** [{"role": ..., "content": ...}] *)
Record message : Type := { role : role_tag; content : str }.

(** The field [tweet.embedding] of a stored document: absent until the
    backfill, then whatever [$set] wrote ([None] is stored as null). *)
Inductive embedding_value : Type :=
| Missing
| Null
| Vector (v : Vec).

(** [tweet.data] of the Twitter client, with the fields the notebooks
    read. *)
Record tweet_data : Type := {
  tweet_id : str;
  tweet_text : str;
  tweet_author_id : str;
  tweet_created_at : str;
  tweet_embedding : embedding_value
}.

(** [user.data] *)
Record user_data : Type := { user_id : str; user_username : str }.

(** A stored document: [{'tweet': ..., 'user': ...}]. *)
Record document : Type := { tweet : tweet_data; user : user_data }.

(** What [$project {"_id": 0, "tweet.text": 1}] leaves of a document. *)
Record projected : Type := { projected_text : str }.

(** [str(tweets)] inside the f-string of [chatbot], for a list of
    projected documents (Python's [repr] of a list of dicts). *)
Variable str_of_results : list projected -> str.

(** A response of [search_recent_tweets]. *)
Record response : Type := {
  includes_users : list user_data;      (* tweets.includes['users'] *)
  data : list tweet_data;               (* tweets.data *)
  meta_next_token : option str          (* the entry 'next_token' of tweets.meta, if any *)
}.

(** *** Calls to the external services *)

Inductive call : Type :=
| EmbeddingsCreate (input : str)
| ChatCompletionsCreate (messages : list message)
| Aggregate (queryVector : Vec) (numCandidates limit : nat)
| Find
| UpdateOne (filter_tweet_id : str) (set_embedding : embedding_value)
| InsertOne (d : document)
| SearchRecentTweets (next_token : option str).

Inductive exn : Type :=
| OpenAIError (msg : str)
| PyMongoError
| DuplicateKeyError
| TweepyError
| KeyError
| EOFError.

(** [str(e)], for the exceptions whose message the notebooks print. *)
Definition str_of_exn (e : exn) : str :=
  match e with
  | OpenAIError msg => msg
  | _ => []
  end.

(** How the services answer during one run of a cell or one call of a
    function.  [inr msg] and [None] stand for a call that raises. *)
Record World : Type := {
  openai_embeddings : str -> Vec + str;
  openai_chat : list message -> str + str;
  mongo_answers : call -> bool;
  twitter_search : option str -> option response
}.

(** *** The notebook's state *)

Inductive output : Type :=
| Prompted (prompt : str)     (* written by [input(prompt)] *)
| Printed (line : str).       (* written by [print(line)] *)

Record State : Type := {
  chat_history : list message;
  tweet_collection : list document;
  stdout : list output;
  calls : list call               (* oldest first *)
}.

Inductive result (A : Type) : Type :=
| Ok (a : A)
| Raised (e : exn).
Arguments Ok {A} a.
Arguments Raised {A} e.

Definition M (A : Type) : Type := State -> result A * State.

Definition ret {A} (a : A) : M A := fun st => (Ok a, st).

Definition raise {A} (e : exn) : M A := fun st => (Raised e, st).

Definition bind {A B} (m : M A) (k : A -> M B) : M B :=
  fun st =>
    match m st with
    | (Ok a, st') => k a st'
    | (Raised e, st') => (Raised e, st')
    end.

(** [try: body except: handler] *)
Definition try_except {A} (body : M A) (handler : exn -> M A) : M A :=
  fun st =>
    match body st with
    | (Ok a, st') => (Ok a, st')
    | (Raised e, st') => handler e st'
    end.

Notation "x <- m ;; k" := (bind m (fun x => k))
  (at level 61, m at next level, right associativity).
Notation "m ;; k" := (bind m (fun _ => k))
  (at level 61, right associativity).

(** [for x in xs: body x] *)
Fixpoint for_each {A} (xs : list A) (body : A -> M unit) : M unit :=
  match xs with
  | [] => ret tt
  | x :: rest => body x ;; for_each rest body
  end.

Definition record_call (c : call) : M unit :=
  fun st => (Ok tt, {| chat_history := chat_history st;
                       tweet_collection := tweet_collection st;
                       stdout := stdout st;
                       calls := calls st ++ [c] |}).

Definition print (line : str) : M unit :=
  fun st => (Ok tt, {| chat_history := chat_history st;
                       tweet_collection := tweet_collection st;
                       stdout := stdout st ++ [Printed line];
                       calls := calls st |}).

Definition write_prompt (p : str) : M unit :=
  fun st => (Ok tt, {| chat_history := chat_history st;
                       tweet_collection := tweet_collection st;
                       stdout := stdout st ++ [Prompted p];
                       calls := calls st |}).

(** [chat_history.append(m)] *)
Definition chat_history_append (m : message) : M unit :=
  fun st => (Ok tt, {| chat_history := chat_history st ++ [m];
                       tweet_collection := tweet_collection st;
                       stdout := stdout st;
                       calls := calls st |}).

Definition get_chat_history : M (list message) :=
  fun st => (Ok (chat_history st), st).

Definition get_tweet_collection : M (list document) :=
  fun st => (Ok (tweet_collection st), st).

Definition set_tweet_collection (c : list document) : M unit :=
  fun st => (Ok tt, {| chat_history := chat_history st;
                       tweet_collection := c;
                       stdout := stdout st;
                       calls := calls st |}).

(** *** The OpenAI client *)

(** [client.embeddings.create(input=text, model=embedding_model)
     .data[0].embedding] *)
Definition client_embeddings_create (w : World) (input : str) : M Vec :=
  record_call (EmbeddingsCreate input) ;;
  match openai_embeddings w input with
  | inl v => ret v
  | inr msg => raise (OpenAIError msg)
  end.

(** [client.chat.completions.create(model=chat_model, messages=...)
     .choices[0].message.content] *)
Definition client_chat_completions_create (w : World)
    (messages : list message) : M str :=
  record_call (ChatCompletionsCreate messages) ;;
  match openai_chat w messages with
  | inl reply => ret reply
  | inr msg => raise (OpenAIError msg)
  end.

(** *** The collection *)

Definition has_tweet_id (tid : str) (d : document) : bool :=
  str_eqb (tweet_id (tweet d)) tid.

(** Modelled from the spec: the Vector Index, that is the [$vectorSearch]
    stage, which the database evaluates and the repository does not
    contain.  Of the documents that hold a vector under [tweet.embedding] it
    returns the [limit] best of the [numCandidates] nearest, ordered by
    descending score ([scored], [insert_by_score], [candidates] and
    [vectorSearch_stage] below). *)
Definition scored (queryVector : Vec) (d : document)
  : option (document * Z) :=
  match tweet_embedding (tweet d) with
  | Vector v => Some (d, similarity queryVector v)
  | _ => None
  end.

Fixpoint insert_by_score (x : document * Z) (l : list (document * Z))
  : list (document * Z) :=
  match l with
  | [] => [x]
  | y :: l' =>
      if (snd y <? snd x)%Z then x :: l else y :: insert_by_score x l'
  end.

Fixpoint candidates (queryVector : Vec) (coll : list document)
  : list (document * Z) :=
  match coll with
  | [] => []
  | d :: coll' =>
      match scored queryVector d with
      | Some x => insert_by_score x (candidates queryVector coll')
      | None => candidates queryVector coll'
      end
  end.

Definition vectorSearch_stage (queryVector : Vec) (numCandidates limit : nat)
    (coll : list document) : list (document * Z) :=
  firstn limit (firstn numCandidates (candidates queryVector coll)).

(** [{"$project": {"_id": 0, "tweet.text": 1}}]: the score is not
    projected. *)
Definition project_stage (hits : list (document * Z)) : list projected :=
  map (fun h => {| projected_text := tweet_text (tweet (fst h)) |}) hits.

(** [list(tweet_collection.aggregate(pipeline))] for the pipeline of
    [vector_search]. *)
Definition tweet_collection_aggregate (w : World) (queryVector : Vec)
    (numCandidates limit : nat) : M (list projected) :=
  let c := Aggregate queryVector numCandidates limit in
  record_call c ;;
  if mongo_answers w c then
    coll <- get_tweet_collection ;;
    ret (project_stage
           (vectorSearch_stage queryVector numCandidates limit coll))
  else raise PyMongoError.

(** [list(tweet_collection.find())] *)
Definition tweet_collection_find (w : World) : M (list document) :=
  record_call Find ;;
  if mongo_answers w Find then get_tweet_collection else raise PyMongoError.

Definition set_embedding (e : embedding_value) (d : document) : document :=
  {| tweet := {| tweet_id := tweet_id (tweet d);
                 tweet_text := tweet_text (tweet d);
                 tweet_author_id := tweet_author_id (tweet d);
                 tweet_created_at := tweet_created_at (tweet d);
                 tweet_embedding := e |};
     user := user d |}.

(** [update_one] changes the first document that matches the filter. *)
Fixpoint update_first (tid : str) (e : embedding_value)
    (coll : list document) : list document :=
  match coll with
  | [] => []
  | d :: coll' =>
      if has_tweet_id tid d then set_embedding e d :: coll'
      else d :: update_first tid e coll'
  end.

(** [tweet_collection.update_one({'tweet.id': tid},
     {"$set": {'tweet.embedding': e}})] *)
Definition tweet_collection_update_one (w : World) (tid : str)
    (e : embedding_value) : M unit :=
  let c := UpdateOne tid e in
  record_call c ;;
  if mongo_answers w c then
    coll <- get_tweet_collection ;;
    set_tweet_collection (update_first tid e coll)
  else raise PyMongoError.

(** [tweet_collection.insert_one(d)] under the unique index on
    [tweet.id] that [create_index(..., unique = True)] declared. *)
Definition tweet_collection_insert_one (w : World) (d : document)
  : M unit :=
  let c := InsertOne d in
  record_call c ;;
  if mongo_answers w c then
    coll <- get_tweet_collection ;;
    if existsb (has_tweet_id (tweet_id (tweet d))) coll
    then raise DuplicateKeyError
    else set_tweet_collection (coll ++ [d])
  else raise PyMongoError.

(** *** Utility functions of the retrieval notebook *)

Definition get_embedding (w : World) (text : str) : M (option Vec) :=
  try_except
    (embedding <- client_embeddings_create w text ;;
     ret (Some embedding))
    (fun e =>
       print (lit "Error in get_embedding: " ++ str_of_exn e) ;;
       ret None).

(** What [vector_search] returns: a message string or the list of
    results. *)
Inductive search_value : Type :=
| Message (s : str)
| Results (tweets : list projected).

Definition vector_search (w : World) (query : str) : M search_value :=
  query_embedding <- get_embedding w query ;;
  match query_embedding with
  | None =>
      ret (Message (lit "Invalid query or embedding generation failed."))
  | Some v =>
      results <- tweet_collection_aggregate w v 1000 10 ;;
      ret (Results results)
  end.

(** *** Tweets embedding *)

Definition embedding_of (o : option Vec) : embedding_value :=
  match o with
  | Some v => Vector v
  | None => Null
  end.

Definition embed_tweet (w : World) (d : document) : M unit :=
  try_except
    (tweet_embedding <-
       get_embedding w (clean_tweet (tweet_text (tweet d))) ;;
     tweet_collection_update_one w (tweet_id (tweet d))
       (embedding_of tweet_embedding))
    (fun _ =>
       print (lit "error in embedding tweet " ++ tweet_id (tweet d))).

Definition embed_tweets (w : World) : M unit :=
  tweets <- tweet_collection_find w ;;
  for_each tweets (embed_tweet w).

(** *** Retrieval-augmented generation *)

Definition delimiter : str := lit "###".

Definition system_prompt : message :=
  {| role := System;
     content :=
       lit "you are a chabot answer user questions based on the returned tweets" |}.

(** [f"{tweets}"] *)
Definition format_tweets (tweets : search_value) : str :=
  match tweets with
  | Message s => s
  | Results l => str_of_results l
  end.

Definition user_turn (prompt : str) : message :=
  {| role := User; content := prompt |}.

Definition context_turn (tweets : search_value) : message :=
  {| role := System;
     content := lit "here the returned tweets delimitered by "
                ++ delimiter ++ format_tweets tweets ++ delimiter |}.

Definition assistant_turn (reply : str) : message :=
  {| role := Assistant; content := reply |}.

Definition chatbot (w : World) (prompt : str) : M str :=
  chat_history_append (user_turn prompt) ;;
  tweets <- vector_search w prompt ;;
  chat_history_append (context_turn tweets) ;;
  messages <- get_chat_history ;;
  reply <- client_chat_completions_create w messages ;;
  chat_history_append (assistant_turn reply) ;;
  ret reply.

Definition sentinels : list str := [lit "exit"; lit "quit"].

(** [user_input.lower() in ['exit', 'quit']] *)
Definition is_sentinel (user_input : str) : bool :=
  existsb (str_eqb (lower user_input)) sentinels.

(** The [while True] loop, over the lines standard input will deliver,
    each with the answers the services give at that time. *)
Fixpoint interactive_loop (stdin : list (World * str)) : M unit :=
  match stdin with
  | [] => write_prompt (lit "You: ") ;; raise EOFError
  | (w, user_input) :: rest =>
      write_prompt (lit "You: ") ;;
      if is_sentinel user_input then
        print (lit "Chatbot: Goodbye!")
      else
        reply <- chatbot w user_input ;;
        print (lit "Chatbot: " ++ reply) ;;
        interactive_loop rest
  end.

(** A session as the notebook creates it. *)
Definition fresh (coll : list document) : State :=
  {| chat_history := [system_prompt];
     tweet_collection := coll;
     stdout := [];
     calls := [] |}.

(** *** Tweet collection *)

(** [tweet_json = {}; tweet_json['tweet'] = tweet.data;
     tweet_json['user'] = user.data] *)
Definition tweet_json_of (p : user_data * tweet_data) : document :=
  {| tweet := snd p; user := fst p |}.

(** The body of both insert loops. *)
Definition insert_tweet (w : World) (p : user_data * tweet_data) : M unit :=
  let tweet_json := tweet_json_of p in
  try_except
    (tweet_collection_insert_one w tweet_json ;;
     print (tweet_created_at (tweet tweet_json)))
    (fun _ => ret tt).

(** [tweet_client.search_recent_tweets(query=query, max_results=100, ...,
     next_token=token)] *)
Definition tweet_client_search_recent_tweets (w : World)
    (token : option str) : M response :=
  record_call (SearchRecentTweets token) ;;
  match twitter_search w token with
  | Some tweets => ret tweets
  | None => raise TweepyError
  end.

(** [next_token = tweets.meta['next_token']] *)
Definition meta_getitem_next_token (tweets : response) : M str :=
  match meta_next_token tweets with
  | Some t => ret t
  | None => raise KeyError
  end.

Definition insert_page (w : World) (tweets : response) : M unit :=
  for_each (combine (includes_users tweets) (data tweets)) (insert_tweet w).

(** The first collecting cell. *)
Definition collect_first (w : World) : M str :=
  tweets <- tweet_client_search_recent_tweets w None ;;
  next_token <- meta_getitem_next_token tweets ;;
  insert_page w tweets ;;
  ret next_token.

(** The second collecting cell: [for i in range(n)]. *)
Fixpoint collect_more (w : World) (n : nat) (next_token : str) : M str :=
  match n with
  | O => ret next_token
  | S n' =>
      tweets <- tweet_client_search_recent_tweets w (Some next_token) ;;
      next_token' <- meta_getitem_next_token tweets ;;
      insert_page w tweets ;;
      collect_more w n' next_token'
  end.

(** *** Vocabulary of the properties *)

Definition failure_note : search_value :=
  Message (lit "Invalid query or embedding generation failed.").

(** What one call of [chatbot] appends, by outcome. *)
Inductive chat_step (prompt : str) (h : list message)
  : result str -> list message -> Prop :=
| step_search_raised :
    chat_step prompt h (Raised PyMongoError) (h ++ [user_turn prompt])
| step_completion_raised tweets msg :
    chat_step prompt h (Raised (OpenAIError msg))
      (h ++ [user_turn prompt; context_turn tweets])
| step_answered tweets reply :
    chat_step prompt h (Ok reply)
      (h ++ [user_turn prompt; context_turn tweets; assistant_turn reply]).

(** [n] calls of [chatbot] in a row, each returning a reply. *)
Inductive successful_calls : nat -> State -> State -> Prop :=
| calls_none st : successful_calls 0 st st
| calls_more n st st1 w prompt reply st2 :
    successful_calls n st st1 ->
    chatbot w prompt st1 = (Ok reply, st2) ->
    successful_calls (S n) st st2.

(** The states a session goes through: [chatbot] is called again
    whatever the previous call did. *)
Inductive reachable : State -> Prop :=
| reach_fresh st : chat_history st = [system_prompt] -> reachable st
| reach_call st w prompt :
    reachable st -> reachable (snd (chatbot w prompt st)).

(** The turns one call leaves in the history. *)
Inductive exchange : list message -> Prop :=
| exchange_unsearched prompt : exchange [user_turn prompt]
| exchange_unanswered prompt tweets :
    exchange [user_turn prompt; context_turn tweets]
| exchange_answered prompt tweets reply :
    exchange [user_turn prompt; context_turn tweets; assistant_turn reply].

Definition answered (l : list message) : Prop :=
  exists prompt tweets reply,
    l = [user_turn prompt; context_turn tweets; assistant_turn reply].

(** The ordering invariant in the words of the specification: a system
    turn first; then user, retrieved context (role [System] in the code)
    and assistant turns in rounds, the last round possibly unfinished. *)
Inductive phase : Type := Idle | AwaitingContext | AwaitingReply.

Fixpoint turns_follow (ph : phase) (l : list message) : bool :=
  match l with
  | [] => true
  | m :: l' =>
      match ph, role m with
      | Idle, User => turns_follow AwaitingContext l'
      | AwaitingContext, System => turns_follow AwaitingReply l'
      | AwaitingReply, Assistant => turns_follow Idle l'
      | _, _ => false
      end
  end.

Definition spec_turn_order (h : list message) : bool :=
  match h with
  | m :: l =>
      match role m with
      | System => turns_follow Idle l
      | _ => false
      end
  | [] => false
  end.

(** The texts sent to the embedding model, and the documents sent to
    [insert_one], in the order of the calls. *)
Definition embedding_inputs (cs : list call) : list str :=
  flat_map (fun c => match c with
                     | EmbeddingsCreate input => [input]
                     | _ => []
                     end) cs.

Definition insert_attempts (cs : list call) : list document :=
  flat_map (fun c => match c with
                     | InsertOne d => [d]
                     | _ => []
                     end) cs.

Definition hush (r : Vec + str) : option Vec :=
  match r with
  | inl v => Some v
  | inr _ => None
  end.

(** What the backfill leaves of a document: the embedding of its
    sanitized text, if the database took the update. *)
Definition backfilled (w : World) (d : document) : document :=
  let e := embedding_of
             (hush (openai_embeddings w (clean_tweet (tweet_text (tweet d)))))
  in
  if mongo_answers w (UpdateOne (tweet_id (tweet d)) e)
  then set_embedding e d else d.

Definition tweet_ids (coll : list document) : list str :=
  map (fun d => tweet_id (tweet d)) coll.

Definition unique_tweet_ids (coll : list document) : Prop :=
  NoDup (tweet_ids coll).

Definition count_id (tid : str) (coll : list document) : nat :=
  length (filter (has_tweet_id tid) coll).

(** Best score first. *)
Definition descending (hits : list (document * Z)) : Prop :=
  StronglySorted (fun a b => (snd b <= snd a)%Z) hits.


(** What one insert loop does to the collection: a document is appended
    when the database takes the request and no stored document has its
    tweet id. *)
Definition store_one (w : World) (coll : list document) (d : document)
  : list document :=
  if mongo_answers w (InsertOne d)
     && negb (existsb (has_tweet_id (tweet_id (tweet d))) coll)
  then coll ++ [d] else coll.

Definition store_all (w : World) (docs coll : list document)
  : list document :=
  fold_left (store_one w) docs coll.

(** The documents an insert loop builds from a response. *)
Definition page_documents (tweets : response) : list document :=
  map tweet_json_of (combine (includes_users tweets) (data tweets)).

(** A world in which every request is taken and the model services are
    down, and a response whose users were deduplicated: two tweets, one
    user, the first tweet written by somebody else. *)
Definition world_up : World :=
  {| openai_embeddings := fun _ => inr [];
     openai_chat := fun _ => inr [];
     mongo_answers := fun _ => true;
     twitter_search := fun _ => None |}.

Definition short_users_response : response :=
  {| includes_users := [ {| user_id := lit "7"; user_username := lit "b" |} ];
     data := [ {| tweet_id := lit "101"; tweet_text := lit "first";
                  tweet_author_id := lit "3";
                  tweet_created_at := lit "2025-03-31T18:55:28.000Z";
                  tweet_embedding := Missing |};
               {| tweet_id := lit "102"; tweet_text := lit "second";
                  tweet_author_id := lit "7";
                  tweet_created_at := lit "2025-03-31T18:55:01.000Z";
                  tweet_embedding := Missing |} ];
     meta_next_token := Some (lit "b26v89c19zqg8o3f") |}.

(** The state after [input] wrote its prompt, after [print] wrote a
    line. *)
Definition prompted (p : str) (st : State) : State :=
  snd (write_prompt p st).

Definition printed (line : str) (st : State) : State :=
  snd (print line st).

(** *** The search cell *)

(** How the run of a cell ends: done, with an exception of the services, or
    with a [TypeError] of the interpreter. *)
Inductive cell_result : Type :=
| Done
| CellRaised (e : exn)
| CellTypeError.

(** [for tweet in tweets: print(tweet['tweet']['text'])] over a list of
    results. *)
Definition print_texts (tweets : list projected) : M unit :=
  for_each tweets (fun tweet => print (projected_text tweet)).

(** The cell
<<
for tweet in vector_search(user_query):
    print(tweet['tweet']['text'])
>>
    When [vector_search] returned its message, the loop runs over the
    characters of a string, and a string subscripted with ['tweet'] raises
    [TypeError] at the first of them. *)
Definition search_cell (w : World) (user_query : str) (st : State)
  : cell_result * State :=
  match vector_search w user_query st with
  | (Ok (Results tweets), st1) =>
      match print_texts tweets st1 with
      | (Ok _, st2) => (Done, st2)
      | (Raised e, st2) => (CellRaised e, st2)
      end
  | (Ok (Message []), st1) => (Done, st1)
  | (Ok (Message (_ :: _)), st1) => (CellTypeError, st1)
  | (Raised e, st1) => (CellRaised e, st1)
  end.

(** *** More vocabulary *)

(** The lines [print] wrote, and the page tokens sent to
    [search_recent_tweets], in order. *)
Definition printed_lines (out : list output) : list str :=
  flat_map (fun o => match o with
                     | Printed line => [line]
                     | Prompted _ => []
                     end) out.

Definition search_requests (cs : list call) : list (option str) :=
  flat_map (fun c => match c with
                     | SearchRecentTweets token => [token]
                     | _ => []
                     end) cs.

(** A document without its embedding. *)
Definition forget_embedding (d : document) : document :=
  set_embedding Missing d.

(** The lines the loop hands to [chatbot]: those before the first [exit] or
    [quit]. *)
Fixpoint asked (stdin : list (World * str)) : nat :=
  match stdin with
  | [] => 0
  | (_, line) :: rest => if is_sentinel line then 0 else S (asked rest)
  end.

(** The code points the one-character alternatives of the pattern take. *)
Definition in_url_classes (c : char) : Prop :=
  (c = 33 \/ (36 <= c /\ c <= 95) \/ (97 <= c /\ c <= 122))%N.

(* ===================================================================== *)
(** * Part II. Properties *)
(* ===================================================================== *)

(** ** The sanitizer *)

Section SanitizerFacts.
Import UrlPattern.

(** The example of the specification; punctuation that follows a URL
    belongs to the pattern's classes and goes with it; text without a match,
    emoji included, comes back as it is. *)
Example clean_tweet_spec_example :
  clean_tweet (lit "see https://example.com/x now") = lit "see  now".
Proof. reflexivity. Qed.

Example clean_tweet_trailing_punctuation :
  clean_tweet (lit "(see https://t.co/ab1), thanks!") = lit "(see  thanks!".
Proof. reflexivity. Qed.

Example clean_tweet_nothing_to_remove :
  clean_tweet (lit "HTTP://t.co www.t.co " ++ [128512%N] ++ lit " http://")
  = lit "HTTP://t.co www.t.co " ++ [128512%N] ++ lit " http://".
Proof. reflexivity. Qed.

Ltac char_arith :=
  unfold url_char, cls_letter, cls_digit, cls_symbol, cls_punct, cls_hex,
    in_range, is_char, ch in *; cbn in *;
  repeat rewrite ?orb_true_iff, ?andb_true_iff, ?orb_false_iff,
    ?andb_false_iff, ?N.leb_le, ?N.leb_gt, ?N.eqb_eq, ?N.eqb_neq in *;
  lia.

Lemma hex_is_url_char c : cls_hex c = true -> url_char c = true.
Proof. intros H. char_arith. Qed.

Lemma percent_is_url_char c : is_char "%" c = true -> url_char c = true.
Proof. intros H. char_arith. Qed.

(** The escape alternative [%XX] is never reached: [%] already belongs to
    [[$-_@.&+]]. *)
Lemma star_at_after_run s : star_at s = after_run s.
Proof.
  induction s as [|c rest IH]; simpl; [reflexivity|].
  destruct (url_char c) eqn:U; [assumption|].
  destruct rest as [|h1 [|h2 rest']]; try reflexivity.
  destruct (is_char "%" c) eqn:P; [|reflexivity].
  apply percent_is_url_char in P. congruence.
Qed.

Lemma unit_at_url_char s r :
  unit_at s = Some r <-> exists x, url_char x = true /\ s = x :: r.
Proof.
  split.
  - destruct s as [|c rest]; simpl; [discriminate|].
    destruct (url_char c) eqn:U.
    + intros H; inversion H; subst. now exists c.
    + destruct rest as [|h1 [|h2 rest']]; try discriminate.
      destruct (is_char "%" c) eqn:P; [|discriminate].
      apply percent_is_url_char in P. congruence.
  - intros (x & U & ->). simpl. now rewrite U.
Qed.

Lemma run_split s : s = url_run s ++ after_run s.
Proof.
  induction s as [|c rest IH]; simpl; [reflexivity|].
  destruct (url_char c); simpl; congruence.
Qed.

Lemma run_all_url s : Forall (fun c => url_char c = true) (url_run s).
Proof.
  induction s as [|c rest IH]; simpl; [constructor|].
  destruct (url_char c) eqn:U; constructor; assumption.
Qed.

Lemma after_run_stops s : stops (after_run s).
Proof.
  induction s as [|c rest IH]; simpl; [exact I|].
  destruct (url_char c) eqn:U; [assumption|exact U].
Qed.

Lemma literal_at_spec p s r : literal_at p s = Some r <-> s = p ++ r.
Proof.
  revert s; induction p as [|a p IH]; intros s; simpl.
  - split; [intros H; now inversion H | now intros ->].
  - destruct s as [|c s']; [split; discriminate|].
    destruct (c =? a)%N eqn:E.
    + apply N.eqb_eq in E; subst. rewrite IH.
      split; [now intros -> | intros H; now inversion H].
    + apply N.eqb_neq in E. split; [discriminate|].
      intros H; inversion H; congruence.
Qed.

Lemma tail_at_spec s r :
  tail_at s = Some r <->
  exists x body, url_char x = true /\ s = lit "://" ++ x :: body
                 /\ r = after_run body.
Proof.
  unfold tail_at. split.
  - destruct (literal_at _ s) as [b|] eqn:L; [|discriminate].
    apply literal_at_spec in L.
    destruct (unit_at b) as [rest|] eqn:U; [|discriminate].
    apply unit_at_url_char in U as (x & U & ->).
    intros H; inversion H; subst. exists x, rest.
    now rewrite star_at_after_run.
  - intros (x & body & U & -> & ->).
    replace (literal_at _ _) with (Some (x :: body))
      by (symmetry; now apply literal_at_spec).
    simpl. now rewrite U, star_at_after_run.
Qed.

Lemma match_at_spec s r :
  match_at s = Some r <->
  exists x body, url_char x = true
    /\ (s = lit "http://" ++ x :: body \/ s = lit "https://" ++ x :: body)
    /\ r = after_run body.
Proof.
  unfold match_at. split.
  - destruct (literal_at _ s) as [t|] eqn:L; [|discriminate].
    apply literal_at_spec in L. subst s.
    assert (plain : tail_at t = Some r -> exists x body, url_char x = true
              /\ (lit "http" ++ t = lit "http://" ++ x :: body
                  \/ lit "http" ++ t = lit "https://" ++ x :: body)
              /\ r = after_run body).
    { intros H. apply tail_at_spec in H as (x & body & U & -> & ->).
      exists x, body. repeat split; auto. }
    destruct t as [|c r']; [exact plain|].
    destruct (is_char "s" c) eqn:S; [|exact plain].
    destruct (tail_at r') as [after|] eqn:T; [|exact plain].
    intros H; inversion H; subst after.
    apply tail_at_spec in T as (x & body & U & -> & ->).
    apply N.eqb_eq in S. subst c.
    exists x, body. repeat split; auto.
  - intros (x & body & U & [-> | ->] & ->); unfold tail_at, lit; cbn.
    + rewrite U. now rewrite star_at_after_run.
    + rewrite U. now rewrite star_at_after_run.
Qed.

Lemma match_at_starts s : match_at s <> None <-> starts_url s.
Proof.
  unfold starts_url. split.
  - destruct (match_at s) as [r|] eqn:M; [|congruence].
    intros _. apply match_at_spec in M as (x & body & U & E & _).
    now exists x, body.
  - intros (x & body & U & E).
    assert (M : match_at s = Some (after_run body))
      by (apply match_at_spec; now exists x, body).
    congruence.
Qed.

Lemma match_at_stop s : stops s -> match_at s = None.
Proof.
  intros St. destruct (match_at s) as [r|] eqn:M; [|reflexivity].
  apply match_at_spec in M as (x & body & _ & [-> | ->] & _);
    cbn in St; discriminate.
Qed.

(** The two defining equations of [clean_tweet], by the outcome of the
    match at the head. *)
Lemma clean_tweet_drop c rest after :
  match_at (c :: rest) = Some after ->
  clean_tweet (c :: rest) = clean_tweet after.
Proof.
  intros M. simp clean_tweet.
  destruct (inspect (match_at (c :: rest))) as [[r|] e]; simpl;
    congruence.
Qed.

Lemma clean_tweet_keep c rest :
  match_at (c :: rest) = None ->
  clean_tweet (c :: rest) = c :: clean_tweet rest.
Proof.
  intros M. simp clean_tweet.
  destruct (inspect (match_at (c :: rest))) as [[r|] e]; simpl;
    congruence.
Qed.

Lemma clean_tweet_ind (P : str -> str -> Prop) :
  P [] [] ->
  (forall c rest after, match_at (c :: rest) = Some after ->
     P after (clean_tweet after) -> P (c :: rest) (clean_tweet after)) ->
  (forall c rest, match_at (c :: rest) = None ->
     P rest (clean_tweet rest) -> P (c :: rest) (c :: clean_tweet rest)) ->
  forall t, P t (clean_tweet t).
Proof.
  intros Hnil Hdrop Hkeep t.
  remember (length t) as n eqn:E. revert t E.
  induction n as [n IH] using lt_wf_ind; intros [|c rest] ->.
  - simp clean_tweet.
  - destruct (match_at (c :: rest)) as [after|] eqn:M.
    + rewrite (clean_tweet_drop _ _ _ M). apply Hdrop; [assumption|].
      apply (IH (length after)); [now apply match_at_length in M|reflexivity].
    + rewrite (clean_tweet_keep _ _ M). apply Hkeep; [assumption|].
      apply (IH (length rest)); [simpl; lia|reflexivity].
Qed.

Lemma all_url_chars_of_scheme :
  Forall (fun c => url_char c = true) (lit "http://") /\
  Forall (fun c => url_char c = true) (lit "https://").
Proof. split; repeat constructor. Qed.

(** A needed prefix made of pattern characters lies before any stop. *)
Lemma prefix_before_stop (p a b rest : str) :
  Forall (fun c => url_char c = true) p ->
  stops b -> a ++ b = p ++ rest -> exists rest', a = p ++ rest'.
Proof.
  intros Hp Hb. revert a; induction Hp as [|c p Hc Hp IH]; intros a E.
  - now exists a.
  - destruct a as [|d a]; simpl in E.
    + subst b. simpl in Hb. congruence.
    + inversion E; subst. destruct (IH a H1) as [r' ->]. now exists r'.
Qed.

Lemma starts_url_app a b : starts_url a -> starts_url (a ++ b).
Proof.
  intros (x & body & U & [-> | ->]); exists x, (body ++ b);
    (split; [assumption|]); [left | right];
    now rewrite <- app_assoc.
Qed.

Lemma starts_url_before_stop a b :
  stops b -> starts_url (a ++ b) -> starts_url a.
Proof.
  intros Hb (x & body & U & E).
  destruct all_url_chars_of_scheme as [H1 H2].
  assert (Hx : Forall (fun c => url_char c = true) [x]) by now constructor.
  destruct E as [E | E].
  - destruct (prefix_before_stop (lit "http://" ++ [x]) a b body) as [r ->];
      [apply Forall_app; now split | assumption | now rewrite <- app_assoc |].
    exists x, r. split; [assumption|]. left. now rewrite <- app_assoc.
  - destruct (prefix_before_stop (lit "https://" ++ [x]) a b body) as [r ->];
      [apply Forall_app; now split | assumption | now rewrite <- app_assoc |].
    exists x, r. split; [assumption|]. right. now rewrite <- app_assoc.
Qed.

(** The output is a prefix of the input followed by a stop. *)
Lemma clean_tweet_prefix_then_stop t :
  exists k b, clean_tweet t = firstn k t ++ b /\ stops b.
Proof.
  pattern t, (clean_tweet t). apply clean_tweet_ind; clear t.
  - exists 0, []. now split.
  - intros c rest after M _. exists 0, (clean_tweet after). split; [reflexivity|].
    apply match_at_spec in M as (x & body & _ & _ & ->).
    pose proof (after_run_stops body) as St.
    destruct (after_run body) as [|d r]; [now simp clean_tweet|].
    rewrite clean_tweet_keep; [exact St|].
    now apply match_at_stop.
  - intros c rest M (k & b & E & St). exists (S k), b. simpl.
    now rewrite E.
Qed.

(** No suffix of the output begins with a match. *)
Lemma clean_tweet_no_match t pre s :
  clean_tweet t = pre ++ s -> match_at s = None.
Proof.
  revert pre s. pattern t, (clean_tweet t). apply clean_tweet_ind; clear t.
  - intros pre s E. symmetry in E. apply app_eq_nil in E as [_ ->].
    reflexivity.
  - intros c rest after _ IH pre s E. exact (IH pre s E).
  - intros c rest M IH [|d pre] s E; simpl in E.
    + subst s.
      destruct (match_at (c :: clean_tweet rest)) as [r|] eqn:M'; [|reflexivity].
      exfalso.
      assert (S1 : starts_url (c :: clean_tweet rest))
        by (apply match_at_starts; congruence).
      destruct (clean_tweet_prefix_then_stop rest) as (k & b & E & St).
      rewrite E in S1.
      apply (starts_url_before_stop (c :: firstn k rest) b St) in S1.
      apply (starts_url_app _ (skipn k rest)) in S1.
      simpl in S1. rewrite firstn_skipn in S1.
      apply match_at_starts in S1. congruence.
    + inversion E; subst. exact (IH pre s H1).
Qed.

Lemma url_char_group c : url_char c = true -> group [c].
Proof.
  unfold url_char. intros H.
  destruct (cls_letter c) eqn:A; [now apply group_letter|].
  destruct (cls_digit c) eqn:B; [now apply group_digit|].
  destruct (cls_symbol c) eqn:C; [now apply group_symbol|].
  destruct (cls_punct c) eqn:D; [now apply group_punct|discriminate].
Qed.

Lemma url_chars_group_plus x l :
  url_char x = true -> Forall (fun c => url_char c = true) l ->
  group_plus (x :: l).
Proof.
  intros Hx Hl. revert x Hx. induction Hl as [|y l Hy Hl IH]; intros x Hx.
  - apply plus_one. now apply url_char_group.
  - apply (plus_more [x] (y :: l)); [now apply url_char_group | now apply IH].
Qed.

Lemma group_plus_head body :
  group_plus body -> exists x b, body = x :: b /\ url_char x = true.
Proof.
  assert (G : forall u, group u -> exists x b, u = x :: b /\ url_char x = true).
  { intros u [c H|c H|c H|c H|h1 h2 H1 H2]; eexists _, _;
      (split; [reflexivity|]); try (unfold url_char; rewrite H);
      rewrite ?orb_true_r; reflexivity. }
  intros [u Hu | u v Hu _]; destruct (G u Hu) as (x & b & -> & U).
  - now exists x, b.
  - now exists x, (b ++ v).
Qed.

Lemma url_shaped_starts u post : url_shaped u -> starts_url (u ++ post).
Proof.
  intros [body H | body H]; destruct (group_plus_head body H) as (x & b & -> & U);
    exists x, (b ++ post); (split; [assumption|]); [left | right];
    now rewrite <- app_assoc.
Qed.

(** What a match at the head removes is in the language of the pattern. *)
Lemma match_at_shaped s after :
  match_at s = Some after ->
  exists u, url_shaped u /\ s = u ++ after /\ stops after.
Proof.
  intros M. apply match_at_spec in M as (x & body & U & E & ->).
  pose proof (url_chars_group_plus x (url_run body) U (run_all_url body)) as G.
  destruct E as [-> | ->].
  - exists (lit "http://" ++ x :: url_run body). repeat split.
    + now apply shaped_http.
    + rewrite <- app_assoc. simpl. now rewrite <- run_split.
    + apply after_run_stops.
  - exists (lit "https://" ++ x :: url_run body). repeat split.
    + now apply shaped_https.
    + rewrite <- app_assoc. simpl. now rewrite <- run_split.
    + apply after_run_stops.
Qed.

Lemma clean_tweet_url_free t : url_free (clean_tweet t).
Proof.
  intros pre u post E Hu.
  apply clean_tweet_no_match in E.
  apply (url_shaped_starts u post), match_at_starts in Hu. congruence.
Qed.

Lemma url_free_tail c rest : url_free (c :: rest) -> url_free rest.
Proof. intros F pre u post ->. apply (F (c :: pre) u post). reflexivity. Qed.

Lemma clean_tweet_identity t : url_free t -> clean_tweet t = t.
Proof.
  pattern t, (clean_tweet t). apply clean_tweet_ind; clear t.
  - reflexivity.
  - intros c rest after M _ F. exfalso.
    apply match_at_shaped in M as (u & Hu & E & _).
    apply (F [] u after); assumption.
  - intros c rest _ IH F. f_equal. apply IH. now apply url_free_tail in F.
Qed.



(** *** More on the sanitizer *)

(** X1: sanitizing twice is sanitizing once: what [clean_tweet] returns
    holds nothing it would remove. *)
Theorem clean_tweet_idempotent t :
  clean_tweet (clean_tweet t) = clean_tweet t.
Proof. apply clean_tweet_identity, clean_tweet_url_free. Qed.

Lemma after_run_app_stop body c b :
  url_char c = false -> after_run (body ++ c :: b) = after_run body ++ c :: b.
Proof.
  intros Hc. induction body as [|x body IH]; cbn.
  - now rewrite Hc.
  - destruct (url_char x); [exact IH|reflexivity].
Qed.

Lemma match_at_app_stop s c b :
  url_char c = false ->
  match_at (s ++ c :: b) =
  match match_at s with
  | Some after => Some (after ++ c :: b)
  | None => None
  end.
Proof.
  intros Hc. destruct (match_at s) as [after|] eqn:M.
  - apply match_at_spec in M as (x & body & U & E & ->).
    apply match_at_spec. exists x, (body ++ c :: b).
    split; [assumption|]. split.
    + destruct E as [-> | ->]; [left|right]; now rewrite <- app_assoc.
    + symmetry. now apply after_run_app_stop.
  - destruct (match_at (s ++ c :: b)) as [r|] eqn:M'; [|reflexivity].
    exfalso.
    assert (S1 : starts_url (s ++ c :: b)) by (apply match_at_starts; congruence).
    apply (starts_url_before_stop s (c :: b) Hc), match_at_starts in S1.
    congruence.
Qed.

(** X2: a character outside the pattern's classes (a space, a line break, a
    double quote, any non-ASCII character) separates the text into parts that are
    sanitized on their own: it is kept, and no URL is matched across it. *)
Theorem clean_tweet_across_separator a c b :
  url_char c = false ->
  clean_tweet (a ++ c :: b) = clean_tweet a ++ c :: clean_tweet b.
Proof.
  intros Hc. pattern a, (clean_tweet a). apply clean_tweet_ind; clear a.
  - cbn. apply clean_tweet_keep. now apply match_at_stop.
  - intros x rest after M IH.
    pose proof (match_at_app_stop (x :: rest) c b Hc) as A.
    rewrite M in A. cbn [app] in A.
    cbn [app]. now rewrite (clean_tweet_drop _ _ _ A).
  - intros x rest M IH.
    pose proof (match_at_app_stop (x :: rest) c b Hc) as A.
    rewrite M in A. cbn [app] in A.
    cbn [app]. rewrite (clean_tweet_keep _ _ A). now rewrite IH.
Qed.

Lemma url_char_classes c : url_char c = true <-> in_url_classes c.
Proof.
  unfold in_url_classes. split; intros H.
  - char_arith.
  - destruct (url_char c) eqn:U; [reflexivity|]. exfalso. char_arith.
Qed.

(** X3: what the pattern matches.  Its one-character alternatives take
    exactly the code points 33, 36 to 95 and 97 to 122 (the range [$-_]
    covers the digits, the capitals and most punctuation); the [%XX]
    alternative adds nothing; and a match at a position is [http://] or
    [https://] followed by the longest run of such characters, which must
    not be empty. *)
Theorem url_pattern_match s :
  (forall c, url_char c = true <-> in_url_classes c)
  /\ star_at s = after_run s
  /\ (forall r,
        match_at s = Some r <->
        exists x body,
          in_url_classes x
          /\ (s = lit "http://" ++ x :: body
              \/ s = lit "https://" ++ x :: body)
          /\ r = after_run body)
  /\ s = url_run s ++ after_run s
  /\ Forall in_url_classes (url_run s)
  /\ stops (after_run s).
Proof.
  split; [exact url_char_classes|]. split; [apply star_at_after_run|].
  split; [|split; [apply run_split|split; [|apply after_run_stops]]].
  - intros r. rewrite match_at_spec.
    split; intros (x & body & U & E & R); exists x, body;
      (split; [now apply url_char_classes|now split]).
  - eapply Forall_impl; [|apply run_all_url].
    intros c. apply url_char_classes.
Qed.

End SanitizerFacts.

(** ** The chat operation *)

Ltac unfold_chat :=
  unfold chatbot, vector_search, get_embedding, tweet_collection_aggregate,
    client_embeddings_create, client_chat_completions_create,
    chat_history_append, get_chat_history, get_tweet_collection,
    record_call, print, try_except, bind, ret, raise.

Lemma chatbot_step w prompt st :
  chat_step prompt (chat_history st)
    (fst (chatbot w prompt st)) (chat_history (snd (chatbot w prompt st))).
Proof.
  unfold_chat. cbn.
  destruct (openai_embeddings w prompt) as [v|msg]; cbn.
  - destruct (mongo_answers w _); cbn; [|constructor].
    match goal with |- context [openai_chat w ?m] =>
      destruct (openai_chat w m) as [reply|msg] end; cbn;
      rewrite <- ?app_assoc; constructor.
  - match goal with |- context [openai_chat w ?m] =>
      destruct (openai_chat w m) as [reply|msg'] end; cbn;
      rewrite <- ?app_assoc; constructor.
Qed.

Lemma chatbot_answered w prompt st reply st' :
  chatbot w prompt st = (Ok reply, st') ->
  exists tweets,
    chat_history st' =
    chat_history st
      ++ [user_turn prompt; context_turn tweets; assistant_turn reply].
Proof.
  intros E. pose proof (chatbot_step w prompt st) as H.
  rewrite E in H. cbn in H. inversion H; subst. now exists tweets.
Qed.

Lemma chatbot_completion_raised w prompt st msg st' :
  chatbot w prompt st = (Raised (OpenAIError msg), st') ->
  exists tweets,
    chat_history st' =
    chat_history st ++ [user_turn prompt; context_turn tweets].
Proof.
  intros E. pose proof (chatbot_step w prompt st) as H.
  rewrite E in H. cbn in H. inversion H; subst. now exists tweets.
Qed.

Lemma chatbot_appends w prompt st :
  exists added,
    chat_history (snd (chatbot w prompt st)) = chat_history st ++ added.
Proof.
  destruct (chatbot_step w prompt st); eexists; reflexivity.
Qed.

Lemma successful_calls_shape n st0 st :
  successful_calls n st0 st ->
  exists exchanges,
    chat_history st = chat_history st0 ++ concat exchanges
    /\ length exchanges = n /\ Forall answered exchanges.
Proof.
  induction 1 as [st|n st st1 w prompt reply st2 _ IH E].
  - exists []. cbn. rewrite app_nil_r. repeat split. constructor.
  - destruct IH as (xs & Hh & Hn & Hx).
    apply chatbot_answered in E as [tweets E].
    exists (xs ++ [[user_turn prompt; context_turn tweets;
                    assistant_turn reply]]).
    split; [|split].
    + rewrite E, Hh, concat_app. cbn. now rewrite <- app_assoc.
    + rewrite length_app, Hn. cbn. lia.
    + apply Forall_app. split; [assumption|].
      constructor; [|constructor]. now exists prompt, tweets, reply.
Qed.

Lemma answered_concat_length exchanges :
  Forall answered exchanges ->
  length (concat exchanges) = 3 * length exchanges.
Proof.
  induction 1 as [|x xs (p & t & r & ->) _ IH]; cbn in *; lia.
Qed.

(** C1: a session that starts from the system turn holds [1 + 3 * n]
    turns after [n] calls of [chatbot] that returned a reply: the system
    turn, then a user turn, a retrieved-context turn and an assistant turn
    per call.  If the completion call of the next [chatbot] raises, the
    history holds [1 + 3 * n + 2] turns: the user turn and the
    retrieved-context turn were appended, no assistant turn. *)
Theorem session_turn_count n st0 st :
  chat_history st0 = [system_prompt] ->
  successful_calls n st0 st ->
  length (chat_history st) = 1 + 3 * n
  /\ (exists exchanges,
        chat_history st = system_prompt :: concat exchanges
        /\ length exchanges = n /\ Forall answered exchanges)
  /\ (forall w prompt msg st',
        chatbot w prompt st = (Raised (OpenAIError msg), st') ->
        length (chat_history st') = 1 + 3 * n + 2
        /\ exists tweets,
             chat_history st' =
             chat_history st ++ [user_turn prompt; context_turn tweets]).
Proof.
  intros H0 Hn.
  destruct (successful_calls_shape n st0 st Hn) as (xs & Hh & Hl & Hx).
  rewrite H0 in Hh. cbn in Hh.
  assert (L : length (chat_history st) = 1 + 3 * n).
  { rewrite Hh. cbn. rewrite (answered_concat_length xs Hx), Hl. lia. }
  split; [exact L|]. split; [now exists xs|].
  intros w prompt msg st' E.
  apply chatbot_completion_raised in E as [tweets E].
  split; [|now exists tweets].
  rewrite E, length_app, L. cbn. lia.
Qed.

Lemma chat_step_exchange prompt h r h' :
  chat_step prompt h r h' -> exists added, h' = h ++ added /\ exchange added.
Proof. intros []; eexists; split; try reflexivity; constructor. Qed.

Lemma answered_turns_follow exchanges :
  Forall answered exchanges -> turns_follow Idle (concat exchanges) = true.
Proof.
  induction 1 as [|x xs (p & t & r & ->) _ IH]; [reflexivity|exact IH].
Qed.

(** C6, as the code has it: in every state a session reaches, the history
    is the system turn followed by what each call left, which is a user
    turn alone (the search raised), a user turn and its retrieved-context
    turn (the completion raised), or a user, a retrieved-context and an
    assistant turn; every call only appends to the history.  The order of
    the specification (user and assistant turns alternating) holds in the
    states reached through calls that all returned a reply. *)
Theorem reachable_history_shape st :
  reachable st ->
  (exists exchanges,
      chat_history st = system_prompt :: concat exchanges
      /\ Forall exchange exchanges)
  /\ (forall w prompt, exists added,
        chat_history (snd (chatbot w prompt st)) = chat_history st ++ added
        /\ exchange added)
  /\ (forall n st0, chat_history st0 = [system_prompt] ->
        successful_calls n st0 st ->
        spec_turn_order (chat_history st) = true).
Proof.
  intros R. split; [|split].
  - induction R as [st H|st w prompt _ (xs & Hh & Hx)].
    + exists []. split; [assumption|constructor].
    + destruct (chat_step_exchange _ _ _ _ (chatbot_step w prompt st))
        as (added & E & X).
      exists (xs ++ [added]). split.
      * rewrite E, Hh, concat_app. cbn. now rewrite app_nil_r.
      * apply Forall_app. split; [assumption|]. now constructor.
  - intros w prompt.
    exact (chat_step_exchange _ _ _ _ (chatbot_step w prompt st)).
  - intros n st0 H0 Hn.
    destruct (successful_calls_shape n st0 st Hn) as (xs & Hh & _ & Hx).
    rewrite Hh, H0. cbn. now apply answered_turns_follow.
Qed.

(** C3: when the embedding call raises on the query, [vector_search]
    returns normally with its fixed failure message in place of results;
    the exception is caught and printed inside [get_embedding]; the
    embedding call is the only call issued (the index is not queried) and
    nothing else changes. *)
Theorem vector_search_embedding_failure w query msg st :
  openai_embeddings w query = inr msg ->
  vector_search w query st =
  (Ok failure_note,
   {| chat_history := chat_history st;
      tweet_collection := tweet_collection st;
      stdout := stdout st
                ++ [Printed (lit "Error in get_embedding: " ++ msg)];
      calls := calls st ++ [EmbeddingsCreate query] |}).
Proof.
  intros E. unfold_chat. cbn. rewrite E. reflexivity.
Qed.

(** C2, as the code has it: when the embedding call raises, [chatbot]
    goes on in degraded mode: the retrieved-context turn carries the
    failure message and the reply of the completion is returned.  When the
    index query raises, the exception leaves [chatbot]: only the user turn
    was appended and no reply is returned. *)
Theorem chatbot_retrieval_failure w prompt st :
  (forall msg reply,
      openai_embeddings w prompt = inr msg ->
      openai_chat w (chat_history st
                     ++ [user_turn prompt; context_turn failure_note])
      = inl reply ->
      fst (chatbot w prompt st) = Ok reply
      /\ chat_history (snd (chatbot w prompt st)) =
         chat_history st ++ [user_turn prompt; context_turn failure_note;
                             assistant_turn reply])
  /\ (forall v,
        openai_embeddings w prompt = inl v ->
        mongo_answers w (Aggregate v 1000 10) = false ->
        fst (chatbot w prompt st) = Raised PyMongoError
        /\ chat_history (snd (chatbot w prompt st)) =
           chat_history st ++ [user_turn prompt]).
Proof.
  split.
  - intros msg reply E C. unfold_chat. cbn. rewrite E. cbn.
    rewrite <- app_assoc. cbn. unfold failure_note in C.
    rewrite C. cbn. rewrite <- !app_assoc. split; reflexivity.
  - intros v E A. unfold_chat. cbn. rewrite E. cbn. rewrite A. cbn.
    split; reflexivity.
Qed.

(** ** Retrieval *)

Lemma insert_by_score_Forall (P : document * Z -> Prop) x l :
  P x -> Forall P l -> Forall P (insert_by_score x l).
Proof.
  intros Hx Hl. induction Hl as [|y l Hy Hl IH]; cbn.
  - now constructor.
  - destruct (snd y <? snd x)%Z; constructor; auto.
Qed.

Lemma insert_by_score_descending x l :
  descending l -> descending (insert_by_score x l).
Proof.
  unfold descending. induction 1 as [|y l Hl IH Hy]; cbn.
  - constructor; constructor.
  - destruct (snd y <? snd x)%Z eqn:C.
    + apply Z.ltb_lt in C. constructor.
      * now constructor.
      * constructor; [lia|].
        eapply Forall_impl; [|exact Hy]. cbn. intros; lia.
    + apply Z.ltb_ge in C. constructor; [assumption|].
      now apply insert_by_score_Forall.
Qed.

Lemma candidates_descending v coll : descending (candidates v coll).
Proof.
  induction coll as [|d coll IH]; cbn; [constructor|].
  destruct (scored v d); [now apply insert_by_score_descending|assumption].
Qed.

Lemma candidates_stored v coll :
  Forall (fun h => In (fst h) coll /\ scored v (fst h) = Some h)
    (candidates v coll).
Proof.
  induction coll as [|d coll IH]; cbn; [constructor|].
  assert (IH' : Forall (fun h => In (fst h) (d :: coll)
                                 /\ scored v (fst h) = Some h)
                  (candidates v coll)).
  { eapply Forall_impl; [|exact IH]. cbn. intros h [? ?]. auto. }
  destruct (scored v d) as [x|] eqn:S; [|exact IH'].
  apply insert_by_score_Forall; [|exact IH'].
  pose proof S as S'. unfold scored in S'.
  destruct (tweet_embedding (tweet d)); try discriminate.
  inversion S'; subst x. cbn. split; [now left|exact S].
Qed.

Lemma in_firstn (A : Type) (y : A) n l : In y (firstn n l) -> In y l.
Proof.
  revert n; induction l as [|x l IH]; intros [|n]; cbn; try tauto.
  intros [->|H]; [now left|right; eauto].
Qed.

Lemma firstn_descending n l : descending l -> descending (firstn n l).
Proof.
  unfold descending. intros H. revert n.
  induction H as [|x l Hl IH Hx]; intros [|n]; cbn; try constructor.
  - apply IH.
  - apply Forall_forall. intros y Hy. rewrite Forall_forall in Hx.
    apply Hx. now apply in_firstn in Hy.
Qed.

Lemma firstn_Forall (A : Type) (P : A -> Prop) n l :
  Forall P l -> Forall P (firstn n l).
Proof.
  rewrite !Forall_forall. intros H y Hy. apply H.
  now apply in_firstn in Hy.
Qed.

Lemma vectorSearch_stage_spec v numCandidates limit coll :
  let hits := vectorSearch_stage v numCandidates limit coll in
  length hits <= limit
  /\ descending hits
  /\ Forall (fun h => In (fst h) coll /\ scored v (fst h) = Some h) hits.
Proof.
  unfold vectorSearch_stage. cbn. split; [apply firstn_le_length|]. split.
  - apply firstn_descending, firstn_descending, candidates_descending.
  - apply firstn_Forall, firstn_Forall, candidates_stored.
Qed.

(** C4, as the code has it: [vector_search] takes the query alone; when
    the query is embedded and the index answers, it returns the results of
    its pipeline, and the number of results is bounded by the limit 10
    written there.  The results are the projections of stored documents that
    hold an embedding, in the order of descending score against the
    embedding of the query; the scores themselves are not returned. *)
Theorem vector_search_results w query st :
  (forall v,
      openai_embeddings w query = inl v ->
      mongo_answers w (Aggregate v 1000 10) = true ->
      fst (vector_search w query st) =
      Ok (Results (project_stage
                     (vectorSearch_stage v 1000 10 (tweet_collection st)))))
  /\ (forall tweets st',
        vector_search w query st = (Ok (Results tweets), st') ->
        length tweets <= 10
        /\ exists v hits,
             openai_embeddings w query = inl v
             /\ tweets = project_stage hits
             /\ descending hits
             /\ Forall (fun h => In (fst h) (tweet_collection st)
                                 /\ scored v (fst h) = Some h) hits).
Proof.
  split.
  - intros v E A. unfold_chat. cbn. rewrite E. cbn. rewrite A. reflexivity.
  - intros tweets st'. unfold_chat. cbn.
    destruct (openai_embeddings w query) as [v|msg] eqn:E; cbn;
      [|intros H; inversion H].
    destruct (mongo_answers w _); cbn; intros H; inversion H; subst.
    destruct (vectorSearch_stage_spec v 1000 10 (tweet_collection st))
      as (L & D & F).
    split.
    + unfold project_stage. now rewrite length_map.
    + exists v, (vectorSearch_stage v 1000 10 (tweet_collection st)).
      repeat split; assumption.
Qed.

(** ** Embedding of documents and of queries *)

Ltac unfold_store :=
  unfold embed_tweet, get_embedding, tweet_collection_update_one,
    tweet_collection_insert_one, tweet_collection_find, insert_tweet,
    client_embeddings_create, get_tweet_collection, set_tweet_collection,
    record_call, print, try_except, bind, ret, raise.

Lemma embed_tweet_effect w d st :
  let input := clean_tweet (tweet_text (tweet d)) in
  let e := embedding_of (hush (openai_embeddings w input)) in
  fst (embed_tweet w d st) = Ok tt
  /\ calls (snd (embed_tweet w d st)) =
     calls st ++ [EmbeddingsCreate input; UpdateOne (tweet_id (tweet d)) e]
  /\ tweet_collection (snd (embed_tweet w d st)) =
     if mongo_answers w (UpdateOne (tweet_id (tweet d)) e)
     then update_first (tweet_id (tweet d)) e (tweet_collection st)
     else tweet_collection st.
Proof.
  unfold_store. cbn.
  destruct (openai_embeddings w _) as [v|msg]; cbn;
    destruct (mongo_answers w _); cbn; rewrite <- ?app_assoc;
    repeat split; reflexivity.
Qed.

Lemma for_each_embed_tweet w tweets st :
  fst (for_each tweets (embed_tweet w) st) = Ok tt
  /\ embedding_inputs (calls (snd (for_each tweets (embed_tweet w) st))) =
     embedding_inputs (calls st)
     ++ map (fun d => clean_tweet (tweet_text (tweet d))) tweets.
Proof.
  revert st; induction tweets as [|d tweets IH]; intros st; cbn.
  - now rewrite app_nil_r.
  - unfold bind.
    destruct (embed_tweet_effect w d st) as (R & C & _).
    destruct (embed_tweet w d st) as [r st1]. cbn in R, C. subst r.
    destruct (IH st1) as [IH1 IH2]. split; [exact IH1|].
    rewrite IH2, C. unfold embedding_inputs.
    rewrite flat_map_app. cbn. now rewrite <- app_assoc.
Qed.

Lemma str_eqb_eq a b : str_eqb a b = true <-> a = b.
Proof.
  revert b; induction a as [|x a IH]; intros [|y b]; cbn;
    try (split; [discriminate|congruence]); [tauto|].
  rewrite andb_true_iff, N.eqb_eq, IH.
  split; [intros [-> ->]; reflexivity|intros H; now inversion H].
Qed.

Lemma str_eqb_refl a : str_eqb a a = true.
Proof. now apply str_eqb_eq. Qed.

Lemma str_eqb_neq a b : str_eqb a b = false <-> a <> b.
Proof.
  rewrite <- str_eqb_eq. destruct (str_eqb a b); split; congruence.
Qed.

Lemma tweet_ids_set_embedding e d :
  tweet_id (tweet (set_embedding e d)) = tweet_id (tweet d).
Proof. reflexivity. Qed.

Lemma tweet_ids_backfilled w d :
  tweet_id (tweet (backfilled w d)) = tweet_id (tweet d).
Proof. unfold backfilled. now destruct (mongo_answers w _). Qed.

(** With unique ids, [update_one] reaches the document it was issued
    for. *)
Lemma update_first_middle e d done rest :
  ~ In (tweet_id (tweet d)) (tweet_ids done) ->
  update_first (tweet_id (tweet d)) e (done ++ d :: rest) =
  done ++ set_embedding e d :: rest.
Proof.
  induction done as [|x done IH]; cbn; intros N.
  - unfold has_tweet_id. now rewrite str_eqb_refl.
  - unfold has_tweet_id at 1.
    destruct (str_eqb _ _) eqn:E.
    + apply str_eqb_eq in E. exfalso. apply N. now left.
    + f_equal. apply IH. intros H. apply N. now right.
Qed.

Lemma for_each_embed_tweet_collection w done tweets st :
  NoDup (tweet_ids (done ++ tweets)) ->
  tweet_collection st = done ++ tweets ->
  tweet_collection (snd (for_each tweets (embed_tweet w) st)) =
  done ++ map (backfilled w) tweets.
Proof.
  revert done st; induction tweets as [|d tweets IH]; intros done st U E.
  - cbn. now rewrite E.
  - cbn. unfold bind.
    destruct (embed_tweet_effect w d st) as (R & _ & C).
    destruct (embed_tweet w d st) as [r st1]. cbn in R, C. subst r.
    assert (N : ~ In (tweet_id (tweet d)) (tweet_ids done)).
    { unfold tweet_ids in *. rewrite map_app in U. cbn in U.
      apply NoDup_remove_2 in U. intros H. apply U, in_or_app. now left. }
    assert (E1 : tweet_collection st1 =
                 (done ++ [backfilled w d]) ++ tweets).
    { rewrite C, E. unfold backfilled. cbn.
      destruct (mongo_answers w _).
      - rewrite update_first_middle by assumption.
        now rewrite <- app_assoc.
      - now rewrite <- app_assoc. }
    rewrite (IH (done ++ [backfilled w d]) st1); [now rewrite <- app_assoc| |exact E1].
    unfold tweet_ids in *. rewrite <- app_assoc. cbn.
    rewrite map_app in *. cbn in *. now rewrite tweet_ids_backfilled.
Qed.

(** C8: the backfill embeds the sanitized text of every document it read
    from the collection, and stores that embedding under the document's
    tweet id; [vector_search] embeds the query as it was given. *)
Theorem sanitizer_on_documents_not_on_queries w st :
  embedding_inputs (calls (snd (embed_tweets w st))) =
    embedding_inputs (calls st)
    ++ (if mongo_answers w Find
        then map (fun d => clean_tweet (tweet_text (tweet d)))
                 (tweet_collection st)
        else [])
  /\ (mongo_answers w Find = true ->
      unique_tweet_ids (tweet_collection st) ->
      tweet_collection (snd (embed_tweets w st)) =
      map (backfilled w) (tweet_collection st))
  /\ (forall query,
        embedding_inputs (calls (snd (vector_search w query st))) =
        embedding_inputs (calls st) ++ [query]).
Proof.
  split; [|split].
  - unfold embed_tweets, tweet_collection_find, get_tweet_collection,
      record_call, bind, raise. cbn.
    destruct (mongo_answers w Find); cbn.
    + match goal with |- context [for_each ?l ?f ?s] =>
        destruct (for_each_embed_tweet w l s) as [_ ->] end.
      cbn. unfold embedding_inputs. rewrite flat_map_app. cbn.
      now rewrite app_nil_r.
    + unfold embedding_inputs. rewrite flat_map_app. reflexivity.
  - intros F U.
    unfold embed_tweets, tweet_collection_find, get_tweet_collection,
      record_call, bind, raise. cbn. rewrite F. cbn.
    now rewrite (for_each_embed_tweet_collection w [] (tweet_collection st)).
  - intros query. unfold_chat. cbn. unfold embedding_inputs.
    destruct (openai_embeddings w query); cbn;
      [destruct (mongo_answers w _); cbn|];
      rewrite ?flat_map_app; cbn; now rewrite ?app_nil_r.
Qed.

(** ** Tweet collection *)

Lemma insert_tweet_effect w p st :
  let d := tweet_json_of p in
  fst (insert_tweet w p st) = Ok tt
  /\ calls (snd (insert_tweet w p st)) = calls st ++ [InsertOne d]
  /\ tweet_collection (snd (insert_tweet w p st)) =
     store_one w (tweet_collection st) d.
Proof.
  unfold_store. unfold store_one. cbn.
  destruct (mongo_answers w _); cbn; [|repeat split; reflexivity].
  destruct (existsb _ _); cbn; repeat split; reflexivity.
Qed.

Lemma insert_page_effect w tweets st :
  fst (insert_page w tweets st) = Ok tt
  /\ insert_attempts (calls (snd (insert_page w tweets st))) =
     insert_attempts (calls st) ++ page_documents tweets
  /\ tweet_collection (snd (insert_page w tweets st)) =
     store_all w (page_documents tweets) (tweet_collection st).
Proof.
  unfold insert_page, page_documents, store_all.
  generalize (combine (includes_users tweets) (data tweets)) as pairs.
  intros pairs. revert st. induction pairs as [|p pairs IH]; intros st; cbn.
  - now rewrite app_nil_r.
  - unfold bind.
    destruct (insert_tweet_effect w p st) as (R & C & T).
    destruct (insert_tweet w p st) as [r st1]. cbn in R, C, T. subst r.
    destruct (IH st1) as (IH1 & IH2 & IH3).
    split; [exact IH1|]. split.
    + rewrite IH2, C. unfold insert_attempts. rewrite flat_map_app. cbn.
      now rewrite <- app_assoc.
    + now rewrite IH3, T.
Qed.

Lemma existsb_has_tweet_id tid coll :
  existsb (has_tweet_id tid) coll = true <-> In tid (tweet_ids coll).
Proof.
  unfold tweet_ids, has_tweet_id. rewrite existsb_exists, in_map_iff.
  split; intros (d & H1 & H2); exists d.
  - apply str_eqb_eq in H2. now split.
  - split; [assumption|now apply str_eqb_eq].
Qed.

Lemma store_one_cases w coll d :
  (store_one w coll d = coll
   /\ (mongo_answers w (InsertOne d) = true ->
       In (tweet_id (tweet d)) (tweet_ids coll)))
  \/ (store_one w coll d = coll ++ [d]
      /\ ~ In (tweet_id (tweet d)) (tweet_ids coll)).
Proof.
  unfold store_one. destruct (mongo_answers w _); cbn.
  - destruct (existsb _ coll) eqn:E; cbn.
    + left. split; [reflexivity|]. intros _. now apply existsb_has_tweet_id.
    + right. split; [reflexivity|]. rewrite <- existsb_has_tweet_id.
      congruence.
  - left. split; [reflexivity|discriminate].
Qed.

Lemma store_all_grows w docs coll :
  exists added, store_all w docs coll = coll ++ added.
Proof.
  unfold store_all. revert coll.
  induction docs as [|d docs IH]; intros coll; cbn.
  - exists []. now rewrite app_nil_r.
  - destruct (store_one_cases w coll d) as [[-> _]|[-> _]]; [apply IH|].
    destruct (IH (coll ++ [d])) as [added ->]. exists (d :: added).
    now rewrite <- app_assoc.
Qed.

Lemma store_all_unique w docs coll :
  unique_tweet_ids coll -> unique_tweet_ids (store_all w docs coll).
Proof.
  unfold store_all. revert coll.
  induction docs as [|d docs IH]; intros coll U; cbn; [assumption|].
  apply IH. destruct (store_one_cases w coll d) as [[-> _]|[-> N]];
    [assumption|].
  unfold unique_tweet_ids, tweet_ids in *. rewrite map_app. cbn.
  apply NoDup_app; [assumption|apply NoDup_cons; [intros []|constructor]|].
  intros x Hx [<-|[]]. exact (N Hx).
Qed.

Lemma store_all_keeps_ids w docs coll tid :
  In tid (tweet_ids coll) -> In tid (tweet_ids (store_all w docs coll)).
Proof.
  intros H. destruct (store_all_grows w docs coll) as [added ->].
  unfold tweet_ids in *. rewrite map_app. apply in_or_app. now left.
Qed.

Lemma store_all_stores w docs coll d :
  In d docs -> mongo_answers w (InsertOne d) = true ->
  In (tweet_id (tweet d)) (tweet_ids (store_all w docs coll)).
Proof.
  unfold store_all. revert coll.
  induction docs as [|x docs IH]; intros coll H A; [destruct H|].
  destruct H as [->|H]; cbn.
  - apply (store_all_keeps_ids w docs).
    destruct (store_one_cases w coll d) as [[-> I]|[-> _]]; [now apply I|].
    unfold tweet_ids. rewrite map_app. apply in_or_app. right. now left.
  - now apply IH.
Qed.

Lemma store_all_nothing_new w docs coll :
  (forall d, In d docs -> mongo_answers w (InsertOne d) = true ->
             In (tweet_id (tweet d)) (tweet_ids coll)) ->
  store_all w docs coll = coll.
Proof.
  unfold store_all. induction docs as [|x docs IH]; intros H; cbn;
    [reflexivity|].
  assert (E : store_one w coll x = coll).
  { unfold store_one.
    destruct (mongo_answers w (InsertOne x)) eqn:A; cbn; [|reflexivity].
    assert (I : In (tweet_id (tweet x)) (tweet_ids coll))
      by (apply H; [now left|assumption]).
    apply existsb_has_tweet_id in I. now rewrite I. }
  rewrite E. apply IH. intros d Hd. apply H. now right.
Qed.

Lemma count_id_unique tid coll :
  unique_tweet_ids coll -> In tid (tweet_ids coll) -> count_id tid coll = 1.
Proof.
  unfold unique_tweet_ids, tweet_ids, count_id.
  induction coll as [|d coll IH]; cbn; [intros _ []|].
  intros U H. inversion U as [|? ? N U']; subst.
  unfold has_tweet_id at 1. destruct (str_eqb _ _) eqn:E; cbn.
  - apply str_eqb_eq in E. subst tid. f_equal.
    destruct (filter _ coll) as [|y l] eqn:F; [reflexivity|].
    exfalso. apply N.
    assert (Hy : In y (filter (has_tweet_id (tweet_id (tweet d))) coll))
      by (rewrite F; now left).
    apply filter_In in Hy as [Hy1 Hy2]. apply str_eqb_eq in Hy2.
    rewrite <- Hy2.
    now apply (in_map (fun d => tweet_id (tweet d))).
  - apply str_eqb_neq in E. destruct H as [H|H]; [congruence|].
    now apply IH.
Qed.

(** C9: under the unique index on [tweet.id], an insert loop never raises
    and keeps the tweet ids of the collection unique; what was stored
    stays; every document of the response whose insert the database took
    is stored exactly once under its tweet id, however often that id was
    inserted; and inserting the same response again changes nothing. *)
Theorem insert_page_unique_tweet_id w tweets st :
  unique_tweet_ids (tweet_collection st) ->
  fst (insert_page w tweets st) = Ok tt
  /\ unique_tweet_ids (tweet_collection (snd (insert_page w tweets st)))
  /\ (exists added,
        tweet_collection (snd (insert_page w tweets st)) =
        tweet_collection st ++ added)
  /\ (forall d,
        In d (page_documents tweets) ->
        mongo_answers w (InsertOne d) = true ->
        count_id (tweet_id (tweet d))
          (tweet_collection (snd (insert_page w tweets st))) = 1)
  /\ tweet_collection
       (snd (insert_page w tweets (snd (insert_page w tweets st)))) =
     tweet_collection (snd (insert_page w tweets st)).
Proof.
  intros U.
  destruct (insert_page_effect w tweets st) as (R & _ & T).
  destruct (insert_page_effect w tweets (snd (insert_page w tweets st)))
    as (_ & _ & T2).
  rewrite T2, T. clear T2.
  pose proof (store_all_unique w (page_documents tweets) _ U) as U'.
  split; [exact R|]. split; [exact U'|]. split; [apply store_all_grows|].
  split.
  - intros d Hd A. apply count_id_unique; [exact U'|].
    now apply store_all_stores.
  - apply store_all_nothing_new. intros d Hd A.
    now apply store_all_stores.
Qed.

Lemma combine_fst_firstn (A B : Type) (l : list A) (l' : list B) :
  map fst (combine l l') = firstn (Nat.min (length l) (length l')) l.
Proof.
  revert l'; induction l as [|x l IH]; intros [|y l']; cbn; try reflexivity.
  now rewrite IH.
Qed.

Lemma combine_snd_firstn (A B : Type) (l : list A) (l' : list B) :
  map snd (combine l l') = firstn (Nat.min (length l) (length l')) l'.
Proof.
  revert l'; induction l as [|x l IH]; intros [|y l']; cbn; try reflexivity.
  now rewrite IH.
Qed.

(** C10: an insert loop sends to [insert_one] one document per pair of
    [zip]: as many as the shorter of the two lists, the i-th user with the
    i-th tweet; tweets beyond the number of users are never sent.  With
    fewer users than tweets a tweet can be stored with a user who is not
    its author, and fewer documents are stored than tweets came. *)
Theorem insert_page_pairs_by_position w tweets st :
  let n := Nat.min (length (includes_users tweets)) (length (data tweets)) in
  insert_attempts (calls (snd (insert_page w tweets st))) =
    insert_attempts (calls st) ++ page_documents tweets
  /\ length (page_documents tweets) = n
  /\ map user (page_documents tweets) = firstn n (includes_users tweets)
  /\ map tweet (page_documents tweets) = firstn n (data tweets)
  /\ (let stored :=
        tweet_collection
          (snd (insert_page world_up short_users_response (fresh []))) in
      length (includes_users short_users_response)
        < length (data short_users_response)
      /\ length stored < length (data short_users_response)
      /\ exists d, In d stored
                   /\ tweet_author_id (tweet d) <> user_id (user d)).
Proof.
  cbn zeta. destruct (insert_page_effect w tweets st) as (_ & C & _).
  split; [exact C|]. unfold page_documents.
  rewrite length_map, length_combine, <- combine_fst_firstn,
    <- combine_snd_firstn, !map_map.
  repeat split; try reflexivity.
  - cbn. lia.
  - vm_compute. lia.
  - eexists. split; [vm_compute; left; reflexivity|].
    vm_compute. discriminate.
Qed.

(** ** The interactive loop *)






(** ** More on retrieval *)

(** X4: [vector_search] reads and never writes: the history and the
    collection are as before, whatever the outcome.  It sends the query to
    the embedding model first and queries the index at most once, with 1000
    candidates and limit 10, only when the query was embedded.  The one
    exception that leaves it is that of the index query; an exception of the
    embedding call never does. *)
Theorem vector_search_read_only w query st :
  let r := vector_search w query st in
  chat_history (snd r) = chat_history st
  /\ tweet_collection (snd r) = tweet_collection st
  /\ (fst r = Raised PyMongoError <->
      exists v, openai_embeddings w query = inl v
                /\ mongo_answers w (Aggregate v 1000 10) = false)
  /\ (forall e, fst r = Raised e -> e = PyMongoError)
  /\ exists more,
       calls (snd r) = calls st ++ EmbeddingsCreate query :: more
       /\ (more = []
           \/ exists v, openai_embeddings w query = inl v
                        /\ more = [Aggregate v 1000 10]).
Proof.
  unfold_chat. cbn -[lit].
  destruct (openai_embeddings w query) as [v|msg] eqn:E; cbn -[lit].
  - destruct (mongo_answers w _) eqn:A; cbn -[lit];
      (split; [reflexivity|]); (split; [reflexivity|]).
    + split; [split; [discriminate|]|split; [discriminate|]].
      * intros (v' & Ev & Av). inversion Ev; subst. congruence.
      * exists [Aggregate v 1000 10]. rewrite <- app_assoc.
        split; [reflexivity|]. right. now exists v.
    + split; [split; [intros _; now exists v|reflexivity]|].
      split; [intros e H; now inversion H|].
      exists [Aggregate v 1000 10]. rewrite <- app_assoc.
      split; [reflexivity|]. right. now exists v.
  - split; [reflexivity|]. split; [reflexivity|].
    split; [split; [discriminate|intros (v & Ev & _); discriminate]|].
    split; [discriminate|]. exists []. split; [reflexivity|now left].
Qed.

Lemma print_texts_effect tweets st :
  print_texts tweets st =
  (Ok tt,
   {| chat_history := chat_history st;
      tweet_collection := tweet_collection st;
      stdout := stdout st
                ++ map (fun tweet => Printed (projected_text tweet)) tweets;
      calls := calls st |}).
Proof.
  unfold print_texts. revert st.
  induction tweets as [|t tweets IH]; intros st; cbn.
  - rewrite app_nil_r. now destruct st.
  - unfold bind, print at 1. rewrite IH. cbn. now rewrite <- app_assoc.
Qed.

(** X5: the cell that prints the tweets of a search.  When the query is
    embedded and the index answers, it prints the texts of the results, one
    line each and at most 10.  When the embedding call raises, the cell
    ends in a [TypeError]: [vector_search] returned its message, a string,
    and the loop subscripts its first character; only the error line of
    [get_embedding] was printed.  When the index query raises, the exception
    leaves the cell and nothing was printed. *)
Theorem search_cell_outcomes w user_query st :
  (forall v,
      openai_embeddings w user_query = inl v ->
      mongo_answers w (Aggregate v 1000 10) = true ->
      let hits := vectorSearch_stage v 1000 10 (tweet_collection st) in
      fst (search_cell w user_query st) = Done
      /\ stdout (snd (search_cell w user_query st)) =
         stdout st ++ map (fun h => Printed (tweet_text (tweet (fst h)))) hits
      /\ length hits <= 10)
  /\ (forall msg,
        openai_embeddings w user_query = inr msg ->
        fst (search_cell w user_query st) = CellTypeError
        /\ stdout (snd (search_cell w user_query st)) =
           stdout st ++ [Printed (lit "Error in get_embedding: " ++ msg)])
  /\ (forall v,
        openai_embeddings w user_query = inl v ->
        mongo_answers w (Aggregate v 1000 10) = false ->
        fst (search_cell w user_query st) = CellRaised PyMongoError
        /\ stdout (snd (search_cell w user_query st)) = stdout st).
Proof.
  split; [|split].
  - intros v E A. unfold search_cell. unfold_chat.
    cbn -[lit print_texts vectorSearch_stage].
    rewrite E. cbn -[lit print_texts vectorSearch_stage].
    rewrite A. cbn -[lit print_texts vectorSearch_stage].
    rewrite print_texts_effect. cbn -[lit vectorSearch_stage].
    split; [reflexivity|]. split.
    + unfold project_stage. now rewrite map_map.
    + apply (vectorSearch_stage_spec v 1000 10).
  - intros msg E. unfold search_cell. unfold_chat. cbn -[lit].
    rewrite E. cbn -[lit]. unfold lit at 1. cbn -[lit]. split; reflexivity.
  - intros v E A. unfold search_cell. unfold_chat. cbn -[lit].
    rewrite E. cbn -[lit]. rewrite A. cbn -[lit]. split; reflexivity.
Qed.

(** ** More on the embedding of documents *)

Lemma update_first_forget tid e coll :
  map forget_embedding (update_first tid e coll) = map forget_embedding coll.
Proof.
  induction coll as [|d coll IH]; cbn; [reflexivity|].
  destruct (has_tweet_id tid d); cbn; [reflexivity|now rewrite IH].
Qed.

Lemma for_each_embed_tweet_forget w tweets st :
  map forget_embedding
    (tweet_collection (snd (for_each tweets (embed_tweet w) st)))
  = map forget_embedding (tweet_collection st)
  /\ chat_history (snd (for_each tweets (embed_tweet w) st))
     = chat_history st.
Proof.
  revert st; induction tweets as [|d tweets IH]; intros st; cbn;
    [now split|].
  unfold bind.
  destruct (embed_tweet_effect w d st) as (R & _ & C).
  assert (H : chat_history (snd (embed_tweet w d st)) = chat_history st).
  { unfold_store. cbn -[lit].
    destruct (openai_embeddings w _); cbn -[lit];
      destruct (mongo_answers w _); reflexivity. }
  destruct (embed_tweet w d st) as [r st1]. cbn in R, C, H. subst r.
  destruct (IH st1) as [IH1 IH2]. rewrite IH1, IH2, C, H.
  split; [|reflexivity].
  destruct (mongo_answers w _); [apply update_first_forget|reflexivity].
Qed.

Lemma embed_tweets_unfold w st :
  embed_tweets w st =
  if mongo_answers w Find
  then for_each (tweet_collection st) (embed_tweet w)
         (snd (record_call Find st))
  else (Raised PyMongoError, snd (record_call Find st)).
Proof.
  unfold embed_tweets, tweet_collection_find, get_tweet_collection,
    record_call, bind, raise. cbn.
  destruct (mongo_answers w Find); reflexivity.
Qed.

(** X6: the backfill leaves every document in place and changes nothing but
    [tweet.embedding]: the collection holds the same documents in the same
    order, embeddings apart, and the chat history is untouched.  It raises
    only when reading the collection does, before any embedding call; once
    the documents are read, no failure on a single tweet stops the loop. *)
Theorem embed_tweets_keeps_documents w st :
  map forget_embedding (tweet_collection (snd (embed_tweets w st)))
  = map forget_embedding (tweet_collection st)
  /\ chat_history (snd (embed_tweets w st)) = chat_history st
  /\ (mongo_answers w Find = true /\ fst (embed_tweets w st) = Ok tt
      \/ mongo_answers w Find = false
         /\ fst (embed_tweets w st) = Raised PyMongoError
         /\ calls (snd (embed_tweets w st)) = calls st ++ [Find]).
Proof.
  rewrite embed_tweets_unfold.
  destruct (mongo_answers w Find).
  - destruct (for_each_embed_tweet_forget w (tweet_collection st)
                (snd (record_call Find st))) as [F H].
    destruct (for_each_embed_tweet w (tweet_collection st)
                (snd (record_call Find st))) as [R _].
    split; [exact F|]. split; [exact H|]. left. now split.
  - split; [reflexivity|]. split; [reflexivity|]. right. now repeat split.
Qed.

Lemma embed_tweets_collection w st :
  mongo_answers w Find = true ->
  unique_tweet_ids (tweet_collection st) ->
  tweet_collection (snd (embed_tweets w st)) =
  map (backfilled w) (tweet_collection st).
Proof.
  intros F U. rewrite embed_tweets_unfold, F.
  now rewrite (for_each_embed_tweet_collection w [] (tweet_collection st)).
Qed.

(** X7: the backfill writes whatever [get_embedding] returned.  When the
    embedding call raises for a tweet, [None] is stored: the tweet's
    embedding becomes null, also when it held a vector before. *)
Theorem embed_tweets_stores_null_on_failure w st d msg :
  mongo_answers w Find = true ->
  unique_tweet_ids (tweet_collection st) ->
  In d (tweet_collection st) ->
  openai_embeddings w (clean_tweet (tweet_text (tweet d))) = inr msg ->
  mongo_answers w (UpdateOne (tweet_id (tweet d)) Null) = true ->
  In (set_embedding Null d) (tweet_collection (snd (embed_tweets w st))).
Proof.
  intros F U Hd E A. rewrite (embed_tweets_collection w st F U).
  replace (set_embedding Null d) with (backfilled w d).
  - now apply in_map.
  - unfold backfilled. rewrite E. cbn. now rewrite A.
Qed.

Lemma backfilled_twice w d : backfilled w (backfilled w d) = backfilled w d.
Proof.
  unfold backfilled.
  destruct (mongo_answers w
              (UpdateOne (tweet_id (tweet d))
                 (embedding_of
                    (hush (openai_embeddings w
                             (clean_tweet (tweet_text (tweet d)))))))) eqn:A;
    cbn; rewrite A; reflexivity.
Qed.

(** X8: running the backfill again, with the services answering as before,
    changes nothing: every document already holds the embedding of its
    sanitized text. *)
Theorem embed_tweets_again w st :
  mongo_answers w Find = true ->
  unique_tweet_ids (tweet_collection st) ->
  tweet_collection (snd (embed_tweets w (snd (embed_tweets w st)))) =
  tweet_collection (snd (embed_tweets w st)).
Proof.
  intros F U.
  assert (U1 : unique_tweet_ids (tweet_collection (snd (embed_tweets w st)))).
  { rewrite (embed_tweets_collection w st F U).
    unfold unique_tweet_ids, tweet_ids in *. rewrite map_map.
    erewrite map_ext; [exact U|]. intros d. apply tweet_ids_backfilled. }
  rewrite (embed_tweets_collection w _ F U1).
  rewrite (embed_tweets_collection w st F U), map_map.
  apply map_ext. intros d. apply backfilled_twice.
Qed.

(** ** More on the chat operation *)

Lemma last_app3 (A : Type) (l : list A) a b c d :
  last (l ++ [a; b; c]) d = c.
Proof.
  change [a; b; c] with ([a; b] ++ [c]). rewrite app_assoc. apply last_last.
Qed.

(** X9: a call of [chatbot] that returns sends the whole history to the
    completion, the turns of earlier calls and the new user and
    retrieved-context turns, as its last request; the reply it returns is
    the answer to that request and the content of the last turn of the
    history, tagged assistant.  The collection is not written. *)
Theorem chatbot_sends_full_history w prompt st reply st' :
  chatbot w prompt st = (Ok reply, st') ->
  exists tweets earlier,
    let messages := chat_history st ++ [user_turn prompt; context_turn tweets]
    in
    calls st' = calls st ++ earlier ++ [ChatCompletionsCreate messages]
    /\ openai_chat w messages = inl reply
    /\ chat_history st' = messages ++ [assistant_turn reply]
    /\ last (chat_history st') system_prompt = assistant_turn reply
    /\ tweet_collection st' = tweet_collection st.
Proof.
  unfold_chat. cbn -[lit vectorSearch_stage].
  destruct (openai_embeddings w prompt) as [v|msg]; cbn -[lit vectorSearch_stage].
  - destruct (mongo_answers w _); cbn -[lit vectorSearch_stage];
      [|discriminate].
    match goal with |- context [openai_chat w ?m] =>
      destruct (openai_chat w m) as [r|msg] eqn:C end;
      cbn -[lit vectorSearch_stage]; [|discriminate].
    intros H; inversion H; subst; clear H.
    exists (Results (project_stage
                       (vectorSearch_stage v 1000 10 (tweet_collection st)))),
      [EmbeddingsCreate prompt; Aggregate v 1000 10].
    rewrite <- !app_assoc in C. cbn -[lit vectorSearch_stage] in *.
    rewrite <- !app_assoc. cbn -[lit vectorSearch_stage].
    split; [reflexivity|]. split; [exact C|]. split; [reflexivity|].
    split; [apply last_app3|reflexivity].
  - match goal with |- context [openai_chat w ?m] =>
      destruct (openai_chat w m) as [r|msg'] eqn:C end;
      cbn -[lit]; [|discriminate].
    intros H; inversion H; subst; clear H.
    exists failure_note, [EmbeddingsCreate prompt].
    rewrite <- !app_assoc in C. cbn -[lit] in *.
    rewrite <- !app_assoc. cbn -[lit].
    split; [reflexivity|]. split; [exact C|]. split; [reflexivity|].
    split; [apply last_app3|reflexivity].
Qed.

(** ** More on the interactive loop *)

Lemma interactive_loop_cons w line rest st :
  interactive_loop ((w, line) :: rest) st =
  if is_sentinel line
  then (Ok tt, printed (lit "Chatbot: Goodbye!") (prompted (lit "You: ") st))
  else match chatbot w line (prompted (lit "You: ") st) with
       | (Ok reply, st1) =>
           interactive_loop rest (printed (lit "Chatbot: " ++ reply) st1)
       | (Raised e, st1) => (Raised e, st1)
       end.
Proof.
  cbn [interactive_loop]. unfold bind at 1.
  cbn -[chatbot lit is_sentinel interactive_loop].
  destruct (is_sentinel line); [reflexivity|].
  unfold bind at 1. unfold prompted.
  cbn -[chatbot lit is_sentinel interactive_loop].
  destruct (chatbot w line _) as [[reply|e] st1]; reflexivity.
Qed.

(** X10: the loop reads nothing after its first [exit] or [quit]: the
    lines that follow the word have no effect on the result, the output,
    the history or the calls. *)
Theorem interactive_loop_reads_no_further before w line rest st :
  is_sentinel line = true ->
  interactive_loop (before ++ (w, line) :: rest) st =
  interactive_loop (before ++ [(w, line)]) st.
Proof.
  intros S. revert st.
  induction before as [|[w' line'] before IH]; intros st; cbn [app].
  - rewrite !interactive_loop_cons, S. reflexivity.
  - rewrite !interactive_loop_cons.
    destruct (is_sentinel line'); [reflexivity|].
    destruct (chatbot w' line' _) as [[reply|e] st1]; [apply IH|reflexivity].
Qed.

(** X11: the loop returns normally by [exit] or [quit] alone.  Over lines
    none of which is one of the two words it ends in an exception: that of
    the first call of [chatbot] that raises, or the end of the input. *)
Theorem interactive_loop_without_sentinel stdin st :
  forallb (fun p => negb (is_sentinel (snd p))) stdin = true ->
  exists e,
    fst (interactive_loop stdin st) = Raised e
    /\ (e = EOFError
        \/ exists w line st1,
             In (w, line) stdin /\ fst (chatbot w line st1) = Raised e).
Proof.
  revert st. induction stdin as [|[w line] stdin IH]; intros st H.
  - exists EOFError. split; [reflexivity|now left].
  - cbn [forallb snd] in H. apply andb_true_iff in H as [H1 H2].
    apply negb_true_iff in H1.
    rewrite interactive_loop_cons, H1.
    destruct (chatbot w line (prompted (lit "You: ") st))
      as [[reply|e] st1] eqn:C.
    + destruct (IH (printed (lit "Chatbot: " ++ reply) st1) H2)
        as (e & R & [->|(w' & l' & s' & I & F)]).
      * exists EOFError. split; [exact R|now left].
      * exists e. split; [exact R|]. right. exists w', l', s'.
        split; [now right|exact F].
    + exists e. split; [reflexivity|]. right.
      exists w, line, (prompted (lit "You: ") st).
      split; [now left|now rewrite C].
Qed.

(** ** More on the tweet collection *)

Lemma insert_tweet_output w p st :
  let d := tweet_json_of p in
  chat_history (snd (insert_tweet w p st)) = chat_history st
  /\ (tweet_collection (snd (insert_tweet w p st)) = tweet_collection st
      /\ stdout (snd (insert_tweet w p st)) = stdout st
      \/ tweet_collection (snd (insert_tweet w p st))
         = tweet_collection st ++ [d]
         /\ stdout (snd (insert_tweet w p st))
            = stdout st ++ [Printed (tweet_created_at (tweet d))]).
Proof.
  unfold_store. cbn.
  destruct (mongo_answers w _); cbn; [|split; [reflexivity|now left]].
  destruct (existsb _ _); cbn; split; try reflexivity; [now left|now right].
Qed.

(** X12: an insert loop prints one line per document it stored and none for
    the others: the lines added to the output are the [created_at] of the
    documents added to the collection, in the same order.  The chat history
    is untouched. *)
Theorem insert_page_prints_what_it_stored w tweets st :
  exists added,
    tweet_collection (snd (insert_page w tweets st))
    = tweet_collection st ++ added
    /\ stdout (snd (insert_page w tweets st))
       = stdout st ++ map (fun d => Printed (tweet_created_at (tweet d))) added
    /\ chat_history (snd (insert_page w tweets st)) = chat_history st.
Proof.
  unfold insert_page.
  generalize (combine (includes_users tweets) (data tweets)) as pairs.
  intros pairs. revert st. induction pairs as [|p pairs IH]; intros st.
  - exists []. cbn. now rewrite !app_nil_r.
  - cbn [for_each]. unfold bind.
    destruct (insert_tweet_effect w p st) as (R & _ & _).
    destruct (insert_tweet_output w p st) as (H & O).
    destruct (insert_tweet w p st) as [r st1]. cbn in R, H, O. subst r.
    destruct (IH st1) as (added & E1 & E2 & E3).
    destruct O as [[C S]|[C S]].
    + exists added. now rewrite E1, E2, E3, C, S, H.
    + exists (tweet_json_of p :: added).
      rewrite E1, E2, E3, C, S, H. cbn. now rewrite <- !app_assoc.
Qed.

Lemma insert_page_calls w tweets st :
  calls (snd (insert_page w tweets st)) =
  calls st ++ map InsertOne (page_documents tweets).
Proof.
  unfold insert_page, page_documents.
  generalize (combine (includes_users tweets) (data tweets)) as pairs.
  intros pairs. revert st. induction pairs as [|p pairs IH]; intros st; cbn.
  - now rewrite app_nil_r.
  - unfold bind.
    destruct (insert_tweet_effect w p st) as (R & C & _).
    destruct (insert_tweet w p st) as [r st1]. cbn in R, C. subst r.
    rewrite IH, C. now rewrite <- app_assoc.
Qed.

Lemma search_requests_app cs cs' :
  search_requests (cs ++ cs') = search_requests cs ++ search_requests cs'.
Proof. apply flat_map_app. Qed.

Lemma search_requests_inserts docs :
  search_requests (map InsertOne docs) = [].
Proof. induction docs as [|d docs IH]; [reflexivity|exact IH]. Qed.

(** One turn of the second collecting cell, and the first cell, by the
    answer of the Twitter client. *)
Lemma collect_more_step w n next_token st :
  collect_more w (S n) next_token st =
  let st1 := snd (record_call (SearchRecentTweets (Some next_token)) st) in
  match twitter_search w (Some next_token) with
  | None => (Raised TweepyError, st1)
  | Some tweets =>
      match meta_next_token tweets with
      | None => (Raised KeyError, st1)
      | Some next_token' =>
          collect_more w n next_token' (snd (insert_page w tweets st1))
      end
  end.
Proof.
  cbn [collect_more].
  unfold tweet_client_search_recent_tweets, meta_getitem_next_token,
    bind at 1 2, record_call, ret, raise. cbn.
  destruct (twitter_search w (Some next_token)) as [tweets|]; [|reflexivity].
  unfold bind at 1.
  destruct (meta_next_token tweets) as [t|]; cbn; [|reflexivity].
  unfold bind at 1.
  match goal with |- context [insert_page w tweets ?s] =>
    destruct (insert_page_effect w tweets s) as (R & _ & _);
    destruct (insert_page w tweets s) as [r st2] end.
  cbn in R. subst r. reflexivity.
Qed.

Lemma collect_first_step w st :
  collect_first w st =
  let st1 := snd (record_call (SearchRecentTweets None) st) in
  match twitter_search w None with
  | None => (Raised TweepyError, st1)
  | Some tweets =>
      match meta_next_token tweets with
      | None => (Raised KeyError, st1)
      | Some next_token => (Ok next_token, snd (insert_page w tweets st1))
      end
  end.
Proof.
  unfold collect_first, tweet_client_search_recent_tweets,
    meta_getitem_next_token, bind at 1 2, record_call, ret, raise. cbn.
  destruct (twitter_search w None) as [tweets|]; [|reflexivity].
  unfold bind at 1.
  destruct (meta_next_token tweets) as [t|]; cbn; [|reflexivity].
  unfold bind at 1.
  match goal with |- context [insert_page w tweets ?s] =>
    destruct (insert_page_effect w tweets s) as (R & _ & _);
    destruct (insert_page w tweets s) as [r st2] end.
  cbn in R. subst r. reflexivity.
Qed.

(** X13: a response without [next_token] (the last page of a search) is
    never inserted: both collecting cells read the token before their
    insert loop, so the cell ends in [KeyError] with the response fetched,
    nothing sent to [insert_one], nothing printed and the collection as it
    was. *)
Theorem collect_without_next_token w tweets :
  meta_next_token tweets = None ->
  (forall st,
      twitter_search w None = Some tweets ->
      fst (collect_first w st) = Raised KeyError
      /\ tweet_collection (snd (collect_first w st)) = tweet_collection st
      /\ stdout (snd (collect_first w st)) = stdout st
      /\ calls (snd (collect_first w st))
         = calls st ++ [SearchRecentTweets None])
  /\ (forall n next_token st,
        twitter_search w (Some next_token) = Some tweets ->
        fst (collect_more w (S n) next_token st) = Raised KeyError
        /\ tweet_collection (snd (collect_more w (S n) next_token st))
           = tweet_collection st
        /\ stdout (snd (collect_more w (S n) next_token st)) = stdout st
        /\ calls (snd (collect_more w (S n) next_token st))
           = calls st ++ [SearchRecentTweets (Some next_token)]).
Proof.
  intros N. split.
  - intros st T. rewrite collect_first_step. cbn zeta. rewrite T, N.
    repeat split.
  - intros n next_token st T. rewrite collect_more_step. cbn zeta.
    rewrite T, N. repeat split.
Qed.

(** X14: the paging loop can be cut anywhere: fetching [n + m] pages is
    fetching [n] pages and then, from the token and the state they left,
    [m] more; and an exception among the first [n] is the exception of the
    whole.  This is what running the cell again does. *)
Theorem collect_more_split w n m next_token st :
  collect_more w (n + m) next_token st =
  match collect_more w n next_token st with
  | (Ok next_token', st') => collect_more w m next_token' st'
  | (Raised e, st') => (Raised e, st')
  end.
Proof.
  revert next_token st. induction n as [|n IH]; intros next_token st.
  - reflexivity.
  - cbn [Nat.add]. rewrite !collect_more_step. cbn zeta.
    destruct (twitter_search w (Some next_token)) as [tweets|];
      [|reflexivity].
    destruct (meta_next_token tweets) as [t|]; [apply IH|reflexivity].
Qed.

(** X15: however the paging loop ends, by its last page or by an exception
    on the way, it has only appended to the collection, the tweet ids are
    still unique, and it has asked the Twitter client at most [n] times:
    exactly [n] times when it returns.  What was inserted before an
    exception stays. *)
Theorem collect_more_appends_unique w n next_token st :
  unique_tweet_ids (tweet_collection st) ->
  unique_tweet_ids (tweet_collection (snd (collect_more w n next_token st)))
  /\ (exists added,
        tweet_collection (snd (collect_more w n next_token st))
        = tweet_collection st ++ added)
  /\ length (search_requests
               (calls (snd (collect_more w n next_token st))))
     <= length (search_requests (calls st)) + n
  /\ (forall t,
        fst (collect_more w n next_token st) = Ok t ->
        length (search_requests
                  (calls (snd (collect_more w n next_token st))))
        = length (search_requests (calls st)) + n).
Proof.
  revert next_token st. induction n as [|n IH]; intros next_token st U.
  - cbn. split; [exact U|]. split; [exists []; now rewrite app_nil_r|].
    split; [lia|intros; lia].
  - rewrite collect_more_step. cbn zeta.
    set (st1 := snd (record_call (SearchRecentTweets (Some next_token)) st)).
    assert (C1 : tweet_collection st1 = tweet_collection st) by reflexivity.
    assert (L1 : length (search_requests (calls st1))
                 = length (search_requests (calls st)) + 1).
    { unfold st1. cbn. rewrite search_requests_app, length_app.
      reflexivity. }
    assert (stay : unique_tweet_ids (tweet_collection st1)
                   /\ (exists added,
                          tweet_collection st1 = tweet_collection st ++ added)
                   /\ length (search_requests (calls st1))
                      <= length (search_requests (calls st)) + S n).
    { split; [now rewrite C1|]. split; [exists []; now rewrite app_nil_r|].
      lia. }
    destruct (twitter_search w (Some next_token)) as [tweets|];
      [|cbn [fst snd]; destruct stay as (? & ? & ?);
        repeat split; auto; discriminate].
    destruct (meta_next_token tweets) as [t|];
      [|cbn [fst snd]; destruct stay as (? & ? & ?);
        repeat split; auto; discriminate].
    clear stay.
    destruct (insert_page_effect w tweets st1) as (_ & _ & T).
    pose proof (insert_page_calls w tweets st1) as K.
    set (st2 := snd (insert_page w tweets st1)) in *.
    assert (U2 : unique_tweet_ids (tweet_collection st2)).
    { rewrite T. apply store_all_unique. now rewrite C1. }
    assert (L2 : length (search_requests (calls st2))
                 = length (search_requests (calls st)) + 1).
    { rewrite K, search_requests_app, search_requests_inserts, app_nil_r.
      exact L1. }
    destruct (IH t st2 U2) as (V & (added & G) & Le & Eq).
    split; [exact V|]. split.
    + destruct (store_all_grows w (page_documents tweets)
                  (tweet_collection st1)) as [first E].
      exists (first ++ added). rewrite G, T, E, C1. now rewrite app_assoc.
    + split; [lia|]. intros t' R. rewrite (Eq t' R). lia.
Qed.

(** X16: a loop that ends normally asked [chatbot] once for every line
    before the first [exit] or [quit], and every one of these calls
    returned: the history grew by three turns per line, and the last thing
    written is the goodbye line. *)
Theorem interactive_loop_turns stdin st :
  fst (interactive_loop stdin st) = Ok tt ->
  length (chat_history (snd (interactive_loop stdin st)))
  = length (chat_history st) + 3 * asked stdin
  /\ last (stdout (snd (interactive_loop stdin st))) (Prompted [])
     = Printed (lit "Chatbot: Goodbye!").
Proof.
  revert st. induction stdin as [|[w line] stdin IH]; intros st.
  - discriminate.
  - rewrite interactive_loop_cons. cbn [asked].
    destruct (is_sentinel line).
    + intros _. unfold printed, prompted. cbn -[lit]. split; [lia|].
      apply last_last.
    + destruct (chatbot w line (prompted (lit "You: ") st))
        as [[reply|e] st1] eqn:C; [|discriminate].
      intros R. destruct (IH _ R) as [L G]. split; [|exact G].
      rewrite L. apply chatbot_answered in C as [tweets C].
      cbn -[lit] in *. rewrite C, length_app. cbn. lia.
Qed.

End Notebook.

(* ===================================================================== *)
(** * Part III. Runs *)
(* ===================================================================== *)

Arguments chatbot {Vec}.
Arguments vector_search {Vec}.
Arguments interactive_loop {Vec}.
Arguments insert_page {Vec}.
Arguments embed_tweets {Vec}.
Arguments fresh {Vec}.
Arguments chat_history {Vec}.
Arguments tweet_collection {Vec}.
Arguments calls {Vec}.
Arguments stdout {Vec}.
Arguments Ok {A} a.
Arguments Raised {A} e.
Arguments reachable {Vec}.
Arguments successful_calls {Vec}.
Arguments unique_tweet_ids {Vec}.
Arguments count_id {Vec}.
Arguments descending {Vec}.
Arguments project_stage {Vec}.
Arguments scored {Vec}.
Arguments page_documents {Vec}.
Arguments Vector {Vec} v.
Arguments Missing {Vec}.
Arguments Null {Vec}.

(** The services and a small collection, with one number standing for an
    embedding and the distance between two numbers for their score. *)
Module Run.

Definition Vec : Type := Z.

Definition similarity (q v : Vec) : Z := - Z.abs (q - v).

Definition str_of_results (l : list projected) : str :=
  concat (map (fun p => ch "'" :: projected_text p ++ [ch "'"]) l).

Definition unicode_lower (s : str) : str := s.

Definition embed (input : str) : Vec + str :=
  inl (Z.of_nat (length input)).

Definition world_ok : World Vec :=
  {| openai_embeddings := embed;
     openai_chat := fun _ => inl (lit "Phishing and ransomware.");
     mongo_answers := fun _ => true;
     twitter_search := fun _ => None |}.

Definition world_embedding_down : World Vec :=
  {| openai_embeddings := fun _ => inr (lit "Connection error.");
     openai_chat := fun _ => inl (lit "I have no tweets to go by.");
     mongo_answers := fun _ => true;
     twitter_search := fun _ => None |}.

Definition world_index_down : World Vec :=
  {| openai_embeddings := embed;
     openai_chat := fun _ => inl (lit "Phishing and ransomware.");
     mongo_answers := fun _ => false;
     twitter_search := fun _ => None |}.

Definition world_completion_down : World Vec :=
  {| openai_embeddings := embed;
     openai_chat := fun _ => inr (lit "Rate limit reached.");
     mongo_answers := fun _ => true;
     twitter_search := fun _ => None |}.

Definition stored (n : nat) : document Vec :=
  {| tweet := {| tweet_id := lit "19067" ++ [ch "0" + N.of_nat (n / 10);
                                             ch "0" + N.of_nat (n mod 10)]%N;
                 tweet_text := lit "cyber threats seen today https://t.co/x";
                 tweet_author_id := lit "42";
                 tweet_created_at := lit "2025-03-31T18:55:28.000Z";
                 tweet_embedding := Vector (Z.of_nat n) |};
     user := {| user_id := lit "42"; user_username := lit "analyst" |} |}.

(** Twelve documents with embeddings. *)
Definition twelve : list (document Vec) := map stored (seq 1 12).

Definition st0 : State Vec := fresh twelve.

Definition ask (w : World Vec) (prompt : str) : M Vec str :=
  chatbot similarity str_of_results w prompt.

Definition st1 : State Vec := snd (ask world_ok (lit "recent threats") st0).

Definition st_unanswered : State Vec :=
  snd (ask world_completion_down (lit "recent threats") st0).

Definition st_resumed : State Vec :=
  snd (ask world_ok (lit "and phishing?") st_unanswered).

Lemma one_successful_call :
  successful_calls similarity str_of_results 1 st0 st1.
Proof.
  apply (calls_more Vec similarity str_of_results 0 st0 st0 world_ok
           (lit "recent threats") (lit "Phishing and ransomware.") st1).
  - constructor.
  - vm_compute. reflexivity.
Defined.

Lemma session_turn_count_witness :
  length (chat_history st1) = 1 + 3 * 1
  /\ length (chat_history
               (snd (ask world_completion_down (lit "quit") st1)))
     = 1 + 3 * 1 + 2.
Proof.
  destruct (session_turn_count Vec similarity str_of_results 1 st0 st1
              eq_refl one_successful_call) as (L & _ & F).
  split; [exact L|].
  apply (F world_completion_down (lit "quit") (lit "Rate limit reached.")).
  vm_compute. reflexivity.
Defined.

(** C6 fails as stated: after a call whose completion raised and a call
    that was answered, two user turns stand with no assistant turn
    between them. *)
Lemma turn_order_broken_after_failure :
  reachable similarity str_of_results st_resumed
  /\ map role (chat_history st_resumed) =
     [System; User; System; User; System; Assistant]
  /\ spec_turn_order (chat_history st_resumed) = false.
Proof.
  split; [|split; vm_compute; reflexivity].
  unfold st_resumed, st_unanswered, ask.
  apply reach_call, reach_call, reach_fresh. reflexivity.
Defined.

Lemma reachable_history_shape_witness :
  exists exchanges,
    chat_history st_resumed = system_prompt :: concat exchanges
    /\ Forall (exchange str_of_results) exchanges.
Proof.
  apply (reachable_history_shape Vec similarity str_of_results st_resumed).
  unfold st_resumed, st_unanswered, ask.
  apply reach_call, reach_call, reach_fresh. reflexivity.
Defined.

Definition trending : str := lit "What threats are trending?".

(** C2 fails as stated: with the index down, [chatbot] raises and leaves
    the user turn alone in the history. *)
Lemma chatbot_raises_when_index_down :
  fst (ask world_index_down trending st0) = Raised PyMongoError
  /\ chat_history (snd (ask world_index_down trending st0)) =
     [system_prompt; user_turn trending].
Proof. split; vm_compute; reflexivity. Defined.

Lemma chatbot_retrieval_failure_witness :
  (fst (ask world_embedding_down trending st0)
   = Ok (lit "I have no tweets to go by.")
   /\ chat_history (snd (ask world_embedding_down trending st0)) =
      [system_prompt; user_turn trending;
       context_turn str_of_results failure_note;
       assistant_turn (lit "I have no tweets to go by.")])
  /\ (fst (ask world_index_down trending st0) = Raised PyMongoError
      /\ chat_history (snd (ask world_index_down trending st0)) =
         [system_prompt; user_turn trending]).
Proof.
  destruct (chatbot_retrieval_failure Vec similarity str_of_results
              world_embedding_down trending st0) as [degraded _].
  destruct (chatbot_retrieval_failure Vec similarity str_of_results
              world_index_down trending st0) as [_ raised].
  split.
  - apply (degraded (lit "Connection error.")); reflexivity.
  - apply (raised 26%Z); reflexivity.
Defined.

Lemma vector_search_embedding_failure_witness :
  openai_embeddings Vec world_embedding_down trending
  = inr (lit "Connection error.")
  /\ fst (vector_search similarity world_embedding_down trending st0)
     = Ok failure_note
  /\ calls (snd (vector_search similarity world_embedding_down trending st0))
     = [EmbeddingsCreate Vec trending].
Proof.
  split; [reflexivity|].
  rewrite (vector_search_embedding_failure Vec similarity
             world_embedding_down trending (lit "Connection error.") st0
             eq_refl).
  split; reflexivity.
Defined.

Definition ten_nearest : list projected :=
  repeat {| projected_text := lit "cyber threats seen today https://t.co/x" |}
    10.

Definition after_search : State Vec :=
  snd (vector_search similarity world_ok (lit "combats") st0).

Lemma vector_search_combats :
  vector_search similarity world_ok (lit "combats") st0 =
  (Ok (Results ten_nearest), after_search).
Proof. vm_compute. reflexivity. Defined.

(** C4 fails as stated: [vector_search] has no [top_k] to obey; whatever
    number the caller has in mind, zero included, the limit of the
    pipeline decides. *)
Lemma vector_search_has_no_top_k :
  let top_k := 0 in
  fst (vector_search similarity world_ok (lit "combats") st0)
  = Ok (Results ten_nearest)
  /\ top_k < length ten_nearest.
Proof. split; [vm_compute; reflexivity|cbn; lia]. Defined.

Lemma vector_search_results_witness :
  length ten_nearest <= 10
  /\ exists v hits,
       openai_embeddings Vec world_ok (lit "combats") = inl v
       /\ ten_nearest = project_stage hits
       /\ descending hits
       /\ Forall (fun h => In (fst h) (tweet_collection st0)
                           /\ scored similarity v (fst h) = Some h) hits.
Proof.
  exact (proj2 (vector_search_results Vec similarity world_ok
                  (lit "combats") st0)
           ten_nearest after_search vector_search_combats).
Defined.

(** A response that brings the same tweet twice. *)
Definition author : user_data :=
  {| user_id := lit "42"; user_username := lit "analyst" |}.

Definition tweet_once : tweet_data Vec :=
  {| tweet_id := lit "1906791";
     tweet_text := lit "new ransomware strain";
     tweet_author_id := lit "42";
     tweet_created_at := lit "2025-03-31T18:55:28.000Z";
     tweet_embedding := Missing |}.

Definition repeated : response Vec :=
  {| includes_users := [author; author];
     data := [tweet_once; tweet_once];
     meta_next_token := Some (lit "b26v89c19zqg8o3f") |}.

Lemma insert_page_unique_tweet_id_witness :
  fst (insert_page world_ok repeated (fresh [])) = Ok tt
  /\ count_id (lit "1906791")
       (tweet_collection (snd (insert_page world_ok repeated (fresh []))))
     = 1.
Proof.
  destruct (insert_page_unique_tweet_id Vec world_ok repeated (fresh []))
    as (R & _ & _ & C & _).
  - constructor.
  - split; [exact R|].
    apply (C {| tweet := tweet_once; user := author |});
      [now left|reflexivity].
Defined.

(** One round of the interactive loop, then [QUIT]. *)
Example interactive_loop_run :
  let run := interactive_loop similarity unicode_lower str_of_results
               [(world_ok, lit "recent threats"); (world_ok, lit "QUIT");
                (world_ok, lit "never read")] st0 in
  fst run = Ok tt
  /\ stdout (snd run) =
     [Prompted (lit "You: ");
      Printed (lit "Chatbot: Phishing and ransomware.");
      Prompted (lit "You: ");
      Printed (lit "Chatbot: Goodbye!")]
  /\ map role (chat_history (snd run)) = [System; User; System; Assistant].
Proof. repeat split; vm_compute; reflexivity. Qed.

(** The backfill on two documents: the texts sent to the embedding model
    have lost their URLs; the query of a search keeps its own. *)
Example embed_tweets_run :
  let st := fresh [stored 1; stored 2] in
  embedding_inputs Vec (calls (snd (embed_tweets world_ok st)))
  = [lit "cyber threats seen today "; lit "cyber threats seen today "]
  /\ embedding_inputs Vec
       (calls (snd (vector_search similarity world_ok
                      (lit "see https://t.co/x") st)))
     = [lit "see https://t.co/x"].
Proof. split; vm_compute; reflexivity. Qed.


Lemma sanitizer_on_documents_not_on_queries_witness :
  let st := fresh [stored 1; stored 2] in
  tweet_collection (snd (embed_tweets world_ok st))
  = map (backfilled Vec world_ok) [stored 1; stored 2]
  /\ embedding_inputs Vec
       (calls (snd (vector_search similarity world_ok
                      (lit "see https://t.co/x") st)))
     = [lit "see https://t.co/x"].
Proof.
  cbn zeta.
  destruct (sanitizer_on_documents_not_on_queries Vec similarity world_ok
              (fresh [stored 1; stored 2])) as (_ & stored_back & raw).
  split.
  - apply stored_back; [reflexivity|].
    unfold unique_tweet_ids, tweet_ids. cbn -[lit].
    repeat constructor; cbn; intuition discriminate.
  - apply raw.
Defined.


End Run.

Arguments search_cell {Vec}.
Arguments collect_first {Vec}.
Arguments collect_more {Vec}.
Arguments set_embedding {Vec}.

(** Further runs, on the services and the collection of [Run]. *)
Module Coverage.
Import Run.

Lemma clean_tweet_across_separator_witness :
  UrlPattern.url_char (ch " ") = false
  /\ clean_tweet (lit "see https://t.co/a" ++ ch " " :: lit "and http://t.co/b")
     = clean_tweet (lit "see https://t.co/a")
       ++ ch " " :: clean_tweet (lit "and http://t.co/b").
Proof.
  split; [reflexivity|].
  apply (clean_tweet_across_separator (lit "see https://t.co/a") (ch " ")
           (lit "and http://t.co/b")).
  reflexivity.
Defined.

(** A character the pattern does not take ends the URL and stays. *)
Example clean_tweet_leaves_fragment :
  clean_tweet (lit "docs: https://t.co/page#intro") = lit "docs: #intro".
Proof. reflexivity. Qed.

Lemma search_cell_outcomes_witness :
  fst (search_cell similarity world_embedding_down (lit "combats") st0)
  = CellTypeError
  /\ stdout (snd (search_cell similarity world_embedding_down
                    (lit "combats") st0))
     = [Printed (lit "Error in get_embedding: Connection error.")].
Proof.
  destruct (search_cell_outcomes Vec similarity world_embedding_down
              (lit "combats") st0) as (_ & type_error & _).
  apply (type_error (lit "Connection error.")). reflexivity.
Defined.

Definition two_stored : State Vec := fresh [stored 1; stored 2].

Lemma two_stored_unique : unique_tweet_ids (tweet_collection two_stored).
Proof.
  unfold unique_tweet_ids, tweet_ids. cbn -[lit].
  repeat constructor; cbn; intuition discriminate.
Qed.

Lemma embed_tweets_stores_null_on_failure_witness :
  tweet_embedding Vec (tweet Vec (stored 1)) = Vector 1%Z
  /\ In (set_embedding Null (stored 1))
       (tweet_collection (snd (embed_tweets world_embedding_down two_stored))).
Proof.
  split; [reflexivity|].
  apply (embed_tweets_stores_null_on_failure Vec world_embedding_down
           two_stored (stored 1) (lit "Connection error.")).
  - reflexivity.
  - exact two_stored_unique.
  - now left.
  - reflexivity.
  - reflexivity.
Defined.

Lemma embed_tweets_again_witness :
  tweet_collection
    (snd (embed_tweets world_ok (snd (embed_tweets world_ok two_stored))))
  = tweet_collection (snd (embed_tweets world_ok two_stored)).
Proof.
  apply (embed_tweets_again Vec world_ok two_stored);
    [reflexivity|exact two_stored_unique].
Defined.

Lemma first_call_returns :
  ask world_ok (lit "recent threats") st0
  = (Ok (lit "Phishing and ransomware."), st1).
Proof. vm_compute. reflexivity. Qed.

Lemma chatbot_sends_full_history_witness :
  exists tweets earlier,
    let messages :=
      chat_history st0
      ++ [user_turn (lit "recent threats");
          context_turn str_of_results tweets] in
    calls st1 = calls st0 ++ earlier ++ [ChatCompletionsCreate Vec messages]
    /\ openai_chat Vec world_ok messages = inl (lit "Phishing and ransomware.")
    /\ chat_history st1
       = messages ++ [assistant_turn (lit "Phishing and ransomware.")]
    /\ last (chat_history st1) system_prompt
       = assistant_turn (lit "Phishing and ransomware.")
    /\ tweet_collection st1 = tweet_collection st0.
Proof.
  exact (chatbot_sends_full_history Vec similarity str_of_results world_ok
           (lit "recent threats") st0 (lit "Phishing and ransomware.") st1
           first_call_returns).
Defined.

Definition loop (stdin : list (World Vec * str)) : M Vec unit :=
  interactive_loop similarity unicode_lower str_of_results stdin.

Lemma interactive_loop_reads_no_further_witness :
  loop [(world_ok, lit "recent threats"); (world_ok, lit "Exit");
        (world_index_down, lit "never read")] st0
  = loop [(world_ok, lit "recent threats"); (world_ok, lit "Exit")] st0.
Proof.
  apply (interactive_loop_reads_no_further Vec similarity unicode_lower
           str_of_results [(world_ok, lit "recent threats")] world_ok
           (lit "Exit") [(world_index_down, lit "never read")] st0).
  reflexivity.
Defined.

Lemma interactive_loop_without_sentinel_witness :
  exists e,
    fst (loop [(world_ok, lit "recent threats");
               (world_index_down, lit "and phishing?");
               (world_ok, lit "never asked")] st0) = Raised e
    /\ (e = EOFError
        \/ exists w line st,
             In (w, line) [(world_ok, lit "recent threats");
                           (world_index_down, lit "and phishing?");
                           (world_ok, lit "never asked")]
             /\ fst (chatbot similarity str_of_results w line st) = Raised e).
Proof.
  apply (interactive_loop_without_sentinel Vec similarity unicode_lower
           str_of_results).
  reflexivity.
Defined.

(** A search of three pages: the first two carry a token, the last one does
    not; the second page brings a tweet of the first again. *)
Definition page_tweet (tid : string) : tweet_data Vec :=
  {| tweet_id := lit tid;
     tweet_text := lit "cyber threats";
     tweet_author_id := lit "42";
     tweet_created_at := lit "2025-03-31T18:55:28.000Z";
     tweet_embedding := Missing |}.

Definition page (tids : list string) (token : option str) : response Vec :=
  {| includes_users := map (fun _ => author) tids;
     data := map page_tweet tids;
     meta_next_token := token |}.

Definition three_pages (token : option str) : option (response Vec) :=
  match token with
  | None => Some (page ["1"%string; "2"%string] (Some (lit "p2")))
  | Some t =>
      if str_eqb t (lit "p2") then Some (page ["2"%string; "3"%string] (Some (lit "p3")))
      else if str_eqb t (lit "p3") then Some (page ["4"%string] None)
      else None
  end.

Definition world_paging : World Vec :=
  {| openai_embeddings := embed;
     openai_chat := fun _ => inl (lit "Phishing and ransomware.");
     mongo_answers := fun _ => true;
     twitter_search := three_pages |}.

Lemma interactive_loop_turns_witness :
  fst (loop [(world_ok, lit "recent threats");
             (world_embedding_down, lit "and phishing?");
             (world_ok, lit "QUIT")] st0) = Ok tt
  /\ length (chat_history
               (snd (loop [(world_ok, lit "recent threats");
                           (world_embedding_down, lit "and phishing?");
                           (world_ok, lit "QUIT")] st0)))
     = 1 + 3 * 2.
Proof.
  split; [vm_compute; reflexivity|].
  apply (interactive_loop_turns Vec similarity unicode_lower str_of_results
           [(world_ok, lit "recent threats");
            (world_embedding_down, lit "and phishing?");
            (world_ok, lit "QUIT")] st0).
  vm_compute. reflexivity.
Defined.

Definition empty : State Vec := fresh [].

Lemma collect_without_next_token_witness :
  fst (collect_more world_paging 1 (lit "p3") empty) = Raised KeyError
  /\ tweet_collection (snd (collect_more world_paging 1 (lit "p3") empty))
     = []
  /\ data Vec (page ["4"%string] None) = [page_tweet "4"].
Proof.
  destruct (collect_without_next_token Vec world_paging (page ["4"%string] None)
              eq_refl) as [_ more].
  destruct (more 0 (lit "p3") empty eq_refl) as (R & C & _).
  split; [exact R|]. split; [exact C|reflexivity].
Defined.

Lemma collect_more_appends_unique_witness :
  unique_tweet_ids
    (tweet_collection (snd (collect_more world_paging 5 (lit "p2") empty)))
  /\ length (search_requests Vec
               (calls (snd (collect_more world_paging 5 (lit "p2") empty))))
     <= 0 + 5.
Proof.
  destruct (collect_more_appends_unique Vec world_paging 5 (lit "p2") empty)
    as (U & _ & L & _).
  - constructor.
  - split; [exact U|exact L].
Defined.

(** Both collecting cells on the three pages: the tweets of the first two
    are stored, once each; the last page is fetched and lost. *)
Example collect_three_pages :
  let first := collect_first world_paging empty in
  let more := collect_more world_paging 5 (lit "p2") (snd first) in
  fst first = Ok (lit "p2")
  /\ fst more = Raised KeyError
  /\ map (fun d => tweet_id Vec (tweet Vec d)) (tweet_collection (snd more))
     = [lit "1"; lit "2"; lit "3"]
  /\ search_requests Vec (calls (snd more))
     = [None; Some (lit "p2"); Some (lit "p3")]
  /\ length (printed_lines (stdout (snd more))) = 3.
Proof. repeat split; vm_compute; reflexivity. Qed.

End Coverage.
